(** * The HTTP request helper of app/javascript/utils/request.ts

    A shallow embedding of [request] and [assertResponseError].  The
    function is asynchronous and talks to the browser: [fetch], timers,
    an [AbortSignal], and the global counter [__activeRequests].  The
    embedding makes these explicit:

    - the counter is threaded as state (a [Z], as a JS number that only
      sees [++] and [--]);
    - every call to a browser primitive is recorded in a trace of
      [Event]s, in program order;
    - what the browser answers (how [fetch] settles, what
      [userSignal.aborted] reads) is taken from a [World], indexed by the
      loop iteration that asks.

    The function comes in two layers.  [request] is the function on
    prepared values: settings whose payload is a JSON tree and a
    [defaults] whose header list is built, so that lines 43-58 cannot
    throw.  [request_call] is the function on what a caller passes, where
    line 48 or line 56 can throw before the loop is entered; when they do
    not, it is [request] on the prepared values. *)

From Stdlib Require Import ZArith Lia Ascii String DecimalString.
From stdpp Require Import base strings gmap list.

Open Scope Z_scope.

(** ** Data model *)

(** [settings.method] *)
Inductive Method := GET | POST | PUT | PATCH | DELETE.

(** [settings.accept] *)
Inductive Accept := json | html | csv.

Definition Method_eqb (a b : Method) : bool :=
  match a, b with
  | GET, GET | POST, POST | PUT, PUT | PATCH, PATCH | DELETE, DELETE => true
  | _, _ => false
  end.

Set Warnings "-register-all".

(** A JS number that is an integer of magnitude below 2^53: it is exact
    as a double, and [Number::toString] prints its decimal digits. *)
Record SafeInteger := {
  int_value : Z;
  int_safe : Is_true (Z.abs int_value <? 2 ^ 53)
}.

(** JSON trees: the values [JSON.stringify] turns into text without
    leaving anything out.  An object is given by its members as written,
    in order; the serialiser works out which properties that leaves.
    Other values of type [unknown] are in [Unknown] below. *)
Inductive JsValue :=
| JNull
| JBool (b : bool)
| JNumber (n : SafeInteger)
| JString (s : string)
| JArray (xs : list JsValue)
| JObject (fields : list (string * JsValue)).

(** A multipart form: the entries appended to a [FormData]. *)
Definition FormData := list (string * string).

(** [settings.data]: [Record<string, unknown> | FormData]. *)
Inductive Payload :=
| PRecord (fields : list (string * JsValue))
| PFormData (fd : FormData).

(** The external cancellation signal is one object; its [aborted] flag
    changes over time and is read from the [World]. *)
Inductive AbortSignal := UserSignal.

(** [RequestSettings].  The TypeScript type has no [data] member when
    [method] is GET; [request] never reads [data] in that case.  An
    optional member that is absent is [None]; delays are whole
    milliseconds. *)
Record RequestSettings := {
  accept : Accept;
  url : string;
  abortSignal : option AbortSignal;
  timeoutMs : option Z;
  method : Method;
  data : option Payload
}.

(** Values that can be thrown or caught: the three classes of this
    module, the two platform classes [request] tests for, and anything
    else. *)
Inductive JsError :=
| AbortError
| TimeoutError
| ResponseError (message : string)
| DOMException (name : string)
| TypeError (message : string)
| OtherThrown (description : string).

(** [new ResponseError()] uses the constructor's default message. *)
Definition ResponseError_default : JsError := ResponseError "Something went wrong.".


Definition instanceof_ResponseError (e : JsError) : bool :=
  match e with ResponseError _ => true | _ => false end.

Definition instanceof_DOMException (e : JsError) : bool :=
  match e with DOMException _ => true | _ => false end.

Definition instanceof_TypeError (e : JsError) : bool :=
  match e with TypeError _ => true | _ => false end.

(** [e.name] for the test of line 104; only a [DOMException] carries a
    name other than the class default. *)
Definition error_name (e : JsError) : string :=
  match e with
  | DOMException n => n
  | TypeError _ => "TypeError"
  | _ => "Error"
  end.

(** A [Response]: the status the code inspects, and the rest of the
    object, which [request] never looks at. *)
Record Response := { status : Z; content : string }.

(** ** JSON.stringify on JSON trees *)

Definition dquote : ascii := ascii_of_N 34.

Definition hex_digit (n : N) : ascii :=
  match n with
  | 0%N => "0" | 1%N => "1" | 2%N => "2" | 3%N => "3" | 4%N => "4"
  | 5%N => "5" | 6%N => "6" | 7%N => "7" | 8%N => "8" | 9%N => "9"
  | 10%N => "a" | 11%N => "b" | 12%N => "c" | 13%N => "d" | 14%N => "e"
  | _ => "f"
  end%char.

Definition json_escape_char (c : ascii) : string :=
  let n := N_of_ascii c in
  if (n =? 34)%N then String "\" (String dquote EmptyString)
  else if (n =? 92)%N then "\\"
  else if (n =? 8)%N then "\b"
  else if (n =? 9)%N then "\t"
  else if (n =? 10)%N then "\n"
  else if (n =? 12)%N then "\f"
  else if (n =? 13)%N then "\r"
  else if (n <? 32)%N then
    "\u00" +:+ String (hex_digit (n / 16)) (String (hex_digit (n mod 16)) EmptyString)
  else String c EmptyString.

Fixpoint json_escape (s : string) : string :=
  match s with
  | EmptyString => EmptyString
  | String c rest => json_escape_char c +:+ json_escape rest
  end.

Definition json_quote (s : string) : string :=
  String dquote (json_escape s +:+ String dquote EmptyString).

(** A number literal for the runs below. *)
Definition num (n : Z) (ok : Is_true (Z.abs n <? 2 ^ 53)) : JsValue :=
  JNumber {| int_value := n; int_safe := ok |}.

Definition json_number (n : SafeInteger) : string :=
  NilZero.string_of_int (Z.to_int (int_value n)).

Fixpoint json_join (parts : list string) : string :=
  match parts with
  | [] => EmptyString
  | [p] => p
  | p :: rest => p +:+ "," +:+ json_join rest
  end.

(** *** The properties of an object, in enumeration order *)

Definition digit_value (c : ascii) : option N :=
  let n := N_of_ascii c in
  if ((48 <=? n) && (n <=? 57))%N then Some (n - 48)%N else None.

Fixpoint digits_value (acc : N) (s : string) : option N :=
  match s with
  | EmptyString => Some acc
  | String c rest =>
      match digit_value c with
      | Some d => digits_value (acc * 10 + d) rest
      | None => None
      end
  end.

(** A property key that is an array index: the canonical decimal form
    (no sign, no leading zero) of an integer below 2^32 - 1. *)
Definition array_index (key : string) : option N :=
  match key with
  | EmptyString => None
  | String c rest =>
      if (N_of_ascii c =? 48)%N && negb (String.eqb rest EmptyString) then None
      else match digits_value 0 key with
           | Some n => if (n <? 2 ^ 32 - 1)%N then Some n else None
           | None => None
           end
  end.

Definition is_array_index (key : string) : bool :=
  match array_index key with Some _ => true | None => false end.

Section Properties.

Context {A : Type}.

(** [o[key] = v]: a property that exists keeps its place. *)
Fixpoint property_set (key : string) (v : A) (props : list (string * A))
  : list (string * A) :=
  match props with
  | [] => [(key, v)]
  | (k, old) :: rest =>
      if String.eqb k key then (k, v) :: rest
      else (k, old) :: property_set key v rest
  end.

(** The properties that members written in this order leave, in
    creation order: a key written twice is one property, with the last
    value. *)
Definition own_properties (written : list (string * A)) : list (string * A) :=
  fold_left (fun props kv => property_set (fst kv) (snd kv) props) written [].

Fixpoint insert_by_index (i : N) (kv : string * A) (sorted : list (N * (string * A)))
  : list (N * (string * A)) :=
  match sorted with
  | [] => [(i, kv)]
  | (j, kv') :: rest =>
      if (i <? j)%N then (i, kv) :: sorted
      else (j, kv') :: insert_by_index i kv rest
  end.

Definition index_properties (props : list (string * A)) : list (N * (string * A)) :=
  fold_right (fun kv sorted =>
                match array_index (fst kv) with
                | Some i => insert_by_index i kv sorted
                | None => sorted
                end) [] props.

(** The order of [Object.keys]: array indices ascending, then the other
    keys in creation order. *)
Definition enumerate (props : list (string * A)) : list (string * A) :=
  List.map snd (index_properties props)
    ++ List.filter (fun kv => negb (is_array_index (fst kv))) props.

End Properties.

Fixpoint stringify_value (v : JsValue) : string :=
  match v with
  | JNull => "null"
  | JBool true => "true"
  | JBool false => "false"
  | JNumber n => json_number n
  | JString s => json_quote s
  | JArray xs => "[" +:+ json_join (List.map stringify_value xs) +:+ "]"
  | JObject fields =>
      let members := List.map (fun kv => (fst kv, stringify_value (snd kv))) fields in
      "{" +:+ json_join (List.map (fun kt => json_quote (fst kt) +:+ ":" +:+ snd kt)
                                  (enumerate (own_properties members)))
          +:+ "}"
  end.

(** [JSON.stringify(x)] where [x] is a record of JSON trees or
    [undefined]: [undefined] serialises to [undefined], not to a string. *)
Definition JSON_stringify (x : option (list (string * JsValue))) : option string :=
  match x with
  | None => None
  | Some fields => Some (stringify_value (JObject fields))
  end.

(** ** Headers

    A [Headers] object maps lower-cased names to values; [set] replaces
    the value under the lower-cased name. *)

Definition ascii_lower (c : ascii) : ascii :=
  let n := N_of_ascii c in
  if ((65 <=? n) && (n <=? 90))%N then ascii_of_N (n + 32) else c.

Fixpoint lowercase (s : string) : string :=
  match s with
  | EmptyString => EmptyString
  | String c rest => String (ascii_lower c) (lowercase rest)
  end.

Definition Headers_set (name value : string) (h : gmap string string) : gmap string string :=
  <[lowercase name := value]> h.

Definition Headers_get (name : string) (h : gmap string string) : option string :=
  h !! lowercase name.

(** ** Preparation (lines 43-61) *)

(** What is passed as [body] to [fetch]. *)
Inductive Body :=
| BodyNull
| BodyUndefined
| BodyFormData (fd : FormData)
| BodyText (text : string).

Definition instanceof_FormData (b : Body) : bool :=
  match b with BodyFormData _ => true | _ => false end.

(** JS truthiness of the four shapes [data] can take: [null],
    [undefined] and the empty string are falsy, objects are truthy. *)
Definition truthy (b : Body) : bool :=
  match b with
  | BodyNull | BodyUndefined => false
  | BodyFormData _ => true
  | BodyText EmptyString => false
  | BodyText (String _ _) => true
  end.

(** Lines 43-48. *)
Definition prepare_data (settings : RequestSettings) : Body :=
  if Method_eqb (method settings) GET then BodyNull
  else match data settings with
       | Some (PFormData fd) => BodyFormData fd
       | Some (PRecord fields) =>
           match JSON_stringify (Some fields) with
           | Some text => BodyText text
           | None => BodyUndefined
           end
       | None =>
           match JSON_stringify None with
           | Some text => BodyText text
           | None => BodyUndefined
           end
       end.

(** Lines 50-54. *)
Definition acceptType (settings : RequestSettings) : string :=
  match accept settings with
  | json => "application/json, text/html"
  | html => "text/html"
  | csv => "text/csv"
  end.

(** The exported, mutable [defaults : RequestInit]: the header list that
    [new Headers(defaults.headers)] builds, and its other members, which
    are spread into the [fetch] options.  The module initialises it to
    the empty object. *)
Record RequestInit := {
  defaults_headers : gmap string string;
  defaults_rest : list (string * string)
}.

Definition defaults_initial : RequestInit :=
  {| defaults_headers := ∅; defaults_rest := [] |}.

(** Lines 56-58. *)
Definition prepare_headers (defaults : RequestInit) (settings : RequestSettings)
  : gmap string string :=
  let data := prepare_data settings in
  let headers := defaults_headers defaults in
  let headers := Headers_set "Accept" (acceptType settings) headers in
  if truthy data && negb (instanceof_FormData data)
  then Headers_set "Content-Type" "application/json" headers
  else headers.

(** Line 60. *)
Definition maxAttempts (settings : RequestSettings) : nat :=
  if Method_eqb (method settings) GET then 3%nat else 1%nat.

(** Line 61. *)
Definition baseTimeout (settings : RequestSettings) : Z :=
  match timeoutMs settings with
  | Some ms => ms
  | None => 60000
  end.

(** Lines 109 and 123: [500 * Math.pow(2, attempt)]. *)
Definition backoff (attempt : nat) : Z := 500 * 2 ^ Z.of_nat attempt.

(** ** The browser *)

(** The options object handed to [fetch] (lines 86-92).  [init_signal]
    names the [AbortController] whose signal is passed. *)
Record FetchInit := {
  init_defaults : list (string * string);
  init_method : Method;
  init_body : Body;
  init_headers : gmap string string;
  init_signal : nat
}.

(** Calls to browser primitives.  An [AbortController] is named by the
    loop iteration that created it: there is one [new AbortController()]
    per iteration.  Listeners and timers carry the controller their
    callback aborts. *)
Inductive Event :=
| EvNewAbortController (c : nat)
| EvAddEventListener (c : nat)
| EvRemoveEventListener (c : nat)
| EvSetTimeout (c : nat) (ms : Z)
| EvClearTimeout (c : nat)
| EvFetch (target : string) (init : FetchInit)
| EvSleep (ms : Z).

Inductive FetchOutcome :=
| Resolved (response : Response)
| Rejected (e : JsError).

(** What the browser answers during one loop iteration:
    [aborted_at_start] is what [userSignal.aborted] reads at line 74,
    [settled] is how the awaited [fetch] ends, [aborted_at_settle] is what
    [userSignal.aborted] reads at line 105.  Every [fetch] settles: its
    signal is aborted by the timer at the latest.  A real signal never
    goes back from aborted to not aborted; nothing below depends on it. *)
Record AttemptEnv := {
  aborted_at_start : bool;
  settled : FetchOutcome;
  aborted_at_settle : bool
}.

(** The state of the world a call runs in: the module's [defaults]
    object and the browser's answers, by loop iteration. *)
Record World := {
  defaults : RequestInit;
  browser : nat -> AttemptEnv
}.

(** ** Programs: counter state, exceptions, trace

    A program takes the value of [__activeRequests] and gives a [Run]:
    how it completed, the new value of the counter, and the events it
    emitted.  [OutOfFuel] only arises from the bounded unrolling of the
    [while] loop. *)

Inductive Completion (A : Type) :=
| Normal (a : A)
| Throw (e : JsError)
| OutOfFuel.
Arguments Normal {A} a.
Arguments Throw {A} e.
Arguments OutOfFuel {A}.

Record Run (A : Type) := MkRun {
  completion : Completion A;
  activeRequests : Z;
  trace : list Event
}.
Arguments MkRun {A} _ _ _.
Arguments completion {A} _.
Arguments activeRequests {A} _.
Arguments trace {A} _.

Definition Prog (A : Type) : Type := Z -> Run A.

Definition after {A} (events : list Event) (r : Run A) : Run A :=
  match r with
  | MkRun comp c t => MkRun comp c (events ++ t)
  end.

#[global] Instance Prog_ret : MRet Prog := fun A a c => MkRun (Normal a) c [].

#[global] Instance Prog_bind : MBind Prog := fun A B f m c =>
  match m c with
  | MkRun (Normal a) c' t => after t (f a c')
  | MkRun (Throw e) c' t => MkRun (Throw e) c' t
  | MkRun OutOfFuel c' t => MkRun OutOfFuel c' t
  end.

Definition throw {A} (e : JsError) : Prog A := fun c => MkRun (Throw e) c [].

Definition out_of_fuel {A} : Prog A := fun c => MkRun OutOfFuel c [].

Definition try_catch {A} (body : Prog A) (handler : JsError -> Prog A) : Prog A :=
  fun c =>
    match body c with
    | MkRun (Throw e) c' t => after t (handler e c')
    | r => r
    end.

Definition emit (e : Event) : Prog unit := fun c => MkRun (Normal tt) c [e].

Definition incr_activeRequests : Prog unit := fun c => MkRun (Normal tt) (c + 1) [].

Definition decr_activeRequests : Prog unit := fun c => MkRun (Normal tt) (c - 1) [].

Definition when (b : bool) (p : Prog unit) : Prog unit := if b then p else mret tt.

(** ** The attempt loop (lines 63-131) *)

(** How one iteration of the [while] loop leaves its body, when it does
    not throw: [return response], or [continue] with the new value of
    [attempt]. *)
Inductive LoopCtl :=
| LReturn (response : Response)
| LContinue (attempt : nat).

Section Request.

Variable w : World.
Variable settings : RequestSettings.

(** [await fetch(...)] in iteration [attempt]: resolves or rejects as
    the browser decides. *)
Definition fetch (attempt : nat) (target : string) (init : FetchInit) : Prog Response :=
  fun c =>
    MkRun (match settled (browser w attempt) with
           | Resolved response => Normal response
           | Rejected e => Throw e
           end) c [EvFetch target init].

(** [await sleep(ms)] (line 38). *)
Definition sleep (ms : Z) : Prog unit := emit (EvSleep ms).

Definition isGET : bool := Method_eqb (method settings) GET.

(** Lines 87-91: the options of the [fetch] call. *)
Definition fetch_options (combinedSignal : nat) : FetchInit :=
  {| init_defaults := defaults_rest (defaults w);
     init_method := method settings;
     init_body := prepare_data settings;
     init_headers := prepare_headers (defaults w) settings;
     init_signal := combinedSignal |}.

(** Lines 65-130: the body of the [while] loop.  [attempt] and
    [maxAttempts] are naturals; [maxAttempts] is 1 or 3, so the truncated
    [maxAttempts - 1] is the number the source computes. *)
Definition attempt_body (attempt : nat) : Prog LoopCtl :=
  let timeoutController := attempt in
  emit (EvNewAbortController timeoutController);;
  let combinedSignal := timeoutController in
  let userSignal := abortSignal settings in
  match userSignal with
  | Some _ =>
      if aborted_at_start (browser w attempt)
      then decr_activeRequests;; throw AbortError
      else emit (EvAddEventListener timeoutController)
  | None => mret tt
  end;;
  emit (EvSetTimeout timeoutController (baseTimeout settings));;
  try_catch
    (response ← fetch attempt (url settings) (fetch_options combinedSignal);
     emit (EvClearTimeout timeoutController);;
     when (bool_decide (is_Some userSignal)) (emit (EvRemoveEventListener timeoutController));;
     if 500 <=? status response then throw ResponseError_default
     else if status response =? 429
     then throw (ResponseError "Something went wrong, please try again after some time.")
     else mret (LReturn response))
    (fun e =>
       emit (EvClearTimeout timeoutController);;
       when (bool_decide (is_Some userSignal)) (emit (EvRemoveEventListener timeoutController));;
       if instanceof_DOMException e && bool_decide (error_name e = "AbortError")
       then
         if bool_decide (is_Some userSignal) && aborted_at_settle (browser w attempt)
         then throw AbortError
         else if (attempt <? maxAttempts settings - 1)%nat && isGET
         then sleep (backoff attempt);; mret (LContinue (attempt + 1))
         else throw TimeoutError
       else if instanceof_ResponseError e then throw e
       else
         let isNetworkFailure := instanceof_TypeError e in
         if isNetworkFailure && (attempt <? maxAttempts settings - 1)%nat && isGET
         then sleep (backoff attempt);; mret (LContinue (attempt + 1))
         else throw ResponseError_default).

(** Lines 63-64 and 131: [while (attempt < maxAttempts) { ... }].  The
    result is [Some response] when the body returned, [None] when the
    loop condition failed. *)
Fixpoint attempts (fuel : nat) (attempt : nat) : Prog (option Response) :=
  match fuel with
  | O => out_of_fuel
  | S fuel' =>
      if (attempt <? maxAttempts settings)%nat
      then ctl ← attempt_body attempt;
           match ctl with
           | LReturn response => mret (Some response)
           | LContinue attempt' => attempts fuel' attempt'
           end
      else mret None
  end.

(** Lines 40-135, on prepared values: [prepare_data] and
    [prepare_headers] stand for lines 43-58 and do not throw. *)
Definition request : Prog Response :=
  incr_activeRequests;;
  r ← attempts (S (maxAttempts settings)) 0;
  match r with
  | Some response => mret response
  | None => decr_activeRequests;; throw ResponseError_default
  end.

End Request.

(** ** assertResponseError (lines 26-28) *)

Definition assertResponseError (e : JsError) : Completion unit :=
  if negb (instanceof_ResponseError e) then Throw e else Normal tt.

(** ** Calls with any payload and any [defaults.headers]

    [request] above takes settings whose payload is a JSON tree and a
    [defaults] whose header list is built: a call that got through lines
    43-56.  Those lines can throw, outside the [try]: [JSON.stringify] on
    a payload it cannot serialise (line 48) and [new Headers] on a name or
    value it does not accept (line 56).  [request_call] is the function
    on what a caller can really pass. *)

(** Values of type [unknown], as far as [JSON.stringify] tells them
    apart.  [UCyclic] stands for an object or array that is being
    serialised already, met again among its own descendants.  Numbers
    with a fraction or beyond 2^53, [Date]s, [toJSON] methods and symbols
    are left out. *)
Inductive Unknown :=
| UUndefined
| UFunction
| UNull
| UBool (b : bool)
| UNumber (n : SafeInteger)
| UNotFinite
| UBigInt (n : Z)
| UString (s : string)
| UArray (items : list Unknown)
| UObject (props : list (string * Unknown))
| UCyclic.

(** What serialising one value gives: a JSON tree, nothing (the value is
    left out of an object and is [null] in an array), or a [TypeError]
    with this message. *)
Inductive Serialized (A : Type) :=
| Json (a : A)
| Omitted
| NotSerializable (message : string).
Arguments Json {A} a.
Arguments Omitted {A}.
Arguments NotSerializable {A} message.

(** The elements of an array, in order; the first that cannot be
    serialised ends it. *)
Fixpoint array_elements (items : list (Serialized JsValue)) : Serialized (list JsValue) :=
  match items with
  | [] => Json []
  | NotSerializable m :: _ => NotSerializable m
  | item :: rest =>
      match array_elements rest with
      | Json vs => Json (match item with Json v => v | _ => JNull end :: vs)
      | Omitted => Omitted
      | NotSerializable m => NotSerializable m
      end
  end.

(** The members of an object, in the order given; the first that cannot
    be serialised ends it, and those that give nothing are left out. *)
Fixpoint object_members (members : list (string * Serialized JsValue))
  : Serialized (list (string * JsValue)) :=
  match members with
  | [] => Json []
  | (_, NotSerializable m) :: _ => NotSerializable m
  | (key, member) :: rest =>
      match object_members rest with
      | Json fields => Json (match member with
                             | Json v => (key, v) :: fields
                             | _ => fields
                             end)
      | Omitted => Omitted
      | NotSerializable m => NotSerializable m
      end
  end.

(** [SerializeJSONProperty] of the language definition, up to the text. *)
Fixpoint SerializeJSONProperty (u : Unknown) : Serialized JsValue :=
  match u with
  | UUndefined | UFunction => Omitted
  | UNull | UNotFinite => Json JNull
  | UBool b => Json (JBool b)
  | UNumber n => Json (JNumber n)
  | UBigInt _ => NotSerializable "Do not know how to serialize a BigInt"
  | UString s => Json (JString s)
  | UCyclic => NotSerializable "Converting circular structure to JSON"
  | UArray items =>
      match array_elements (List.map SerializeJSONProperty items) with
      | Json vs => Json (JArray vs)
      | Omitted => Omitted
      | NotSerializable m => NotSerializable m
      end
  | UObject props =>
      let members := List.map (fun kv => (fst kv, SerializeJSONProperty (snd kv))) props in
      match object_members (enumerate (own_properties members)) with
      | Json fields => Json (JObject fields)
      | Omitted => Omitted
      | NotSerializable m => NotSerializable m
      end
  end.

(** The members of a record as JSON trees, or the message of the
    [TypeError]. *)
Definition serialize_record (props : list (string * Unknown))
  : Serialized (list (string * JsValue)) :=
  object_members
    (enumerate (own_properties
                  (List.map (fun kv => (fst kv, SerializeJSONProperty (snd kv))) props))).

(** [JSON.stringify(x)] where [x] is a record or [undefined] (line 48). *)
Definition JSON_stringify_unknown (x : option (list (string * Unknown)))
  : Completion (option string) :=
  match x with
  | None => Normal None
  | Some props =>
      match serialize_record props with
      | Json fields => Normal (Some (stringify_value (JObject fields)))
      | Omitted => Normal None
      | NotSerializable m => Throw (TypeError m)
      end
  end.

(** [settings.data] as a caller passes it. *)
Inductive CallPayload :=
| CRecord (props : list (string * Unknown))
| CFormData (fd : FormData).

(** [RequestSettings] as a caller passes them. *)
Record CallSettings := {
  call_accept : Accept;
  call_url : string;
  call_abortSignal : option AbortSignal;
  call_timeoutMs : option Z;
  call_method : Method;
  call_data : option CallPayload
}.

(** Lines 43-48 on a caller's settings. *)
Definition prepare_call_data (settings : CallSettings) : Completion Body :=
  if Method_eqb (call_method settings) GET then Normal BodyNull
  else match call_data settings with
       | Some (CFormData fd) => Normal (BodyFormData fd)
       | Some (CRecord props) =>
           match JSON_stringify_unknown (Some props) with
           | Normal (Some text) => Normal (BodyText text)
           | Normal None => Normal BodyUndefined
           | Throw e => Throw e
           | OutOfFuel => OutOfFuel
           end
       | None =>
           match JSON_stringify_unknown None with
           | Normal (Some text) => Normal (BodyText text)
           | Normal None => Normal BodyUndefined
           | Throw e => Throw e
           | OutOfFuel => OutOfFuel
           end
       end.

(** The settings of the same call with the payload as the JSON tree that
    line 48 serialises, when it can. *)
Definition prepared_settings (settings : CallSettings) : Completion RequestSettings :=
  let prepared payload :=
    {| accept := call_accept settings; url := call_url settings;
       abortSignal := call_abortSignal settings; timeoutMs := call_timeoutMs settings;
       method := call_method settings; data := payload |} in
  if Method_eqb (call_method settings) GET then Normal (prepared None)
  else match call_data settings with
       | Some (CFormData fd) => Normal (prepared (Some (PFormData fd)))
       | Some (CRecord props) =>
           match serialize_record props with
           | Json fields => Normal (prepared (Some (PRecord fields)))
           | Omitted => Normal (prepared None)
           | NotSerializable m => Throw (TypeError m)
           end
       | None => Normal (prepared None)
       end.

(** *** new Headers(init) *)

(** The characters of an HTTP token. *)
Definition is_tchar (c : ascii) : bool :=
  let n := N_of_ascii c in
  ((n =? 33) || ((35 <=? n) && (n <=? 39)) || (n =? 42) || (n =? 43) || (n =? 45)
   || (n =? 46) || ((48 <=? n) && (n <=? 57)) || ((65 <=? n) && (n <=? 90))
   || ((94 <=? n) && (n <=? 122)) || (n =? 124) || (n =? 126))%N.

Fixpoint all_chars (p : ascii -> bool) (s : string) : bool :=
  match s with
  | EmptyString => true
  | String c rest => p c && all_chars p rest
  end.

Definition valid_header_name (name : string) : bool :=
  negb (String.eqb name EmptyString) && all_chars is_tchar name.

(** Tab, line feed, carriage return and space. *)
Definition is_http_whitespace (c : ascii) : bool :=
  let n := N_of_ascii c in ((n =? 9) || (n =? 10) || (n =? 13) || (n =? 32))%N.

Fixpoint strip_leading (s : string) : string :=
  match s with
  | EmptyString => EmptyString
  | String c rest => if is_http_whitespace c then strip_leading rest else s
  end.

Fixpoint strip_trailing (s : string) : string :=
  match s with
  | EmptyString => EmptyString
  | String c rest =>
      match strip_trailing rest with
      | EmptyString => if is_http_whitespace c then EmptyString else String c EmptyString
      | kept => String c kept
      end
  end.

Definition normalize_header_value (value : string) : string :=
  strip_trailing (strip_leading value).

(** A value may not hold NUL, line feed or carriage return. *)
Definition valid_header_value (value : string) : bool :=
  all_chars (fun c => let n := N_of_ascii c in
                      negb ((n =? 0) || (n =? 10) || (n =? 13))%N) value.

(** [headers.append(name, value)]: the message of the [TypeError], or the
    new header list. *)
Definition Headers_append (name value : string) (h : gmap string string)
  : string + gmap string string :=
  let value := normalize_header_value value in
  if negb (valid_header_name name) then inl "Invalid name"
  else if negb (valid_header_value value) then inl "Invalid value"
  else inr (match h !! lowercase name with
            | Some old => <[lowercase name := old +:+ ", " +:+ value]> h
            | None => <[lowercase name := value]> h
            end).

(** [new Headers(init)] for an [init] given as name-value pairs, a record
    or a sequence of pairs; [undefined] is the empty list. *)
Definition new_Headers (init : list (string * string)) : string + gmap string string :=
  fold_left (fun acc nv =>
               match acc with
               | inl m => inl m
               | inr h => Headers_append (fst nv) (snd nv) h
               end) init (inr ∅).

(** The module's [defaults] as the application left it, and the browser. *)
Record CallWorld := {
  call_headers : list (string * string);
  call_rest : list (string * string);
  call_browser : nat -> AttemptEnv
}.

(** The world of the attempt loop once the header list is built. *)
Definition prepared_world (cw : CallWorld) (headers : gmap string string) : World :=
  {| defaults := {| defaults_headers := headers; defaults_rest := call_rest cw |};
     browser := call_browser cw |}.


(** A step that completes without touching the counter or the browser. *)
Definition lift {A} (r : Completion A) : Prog A := fun c => MkRun r c [].

(** Lines 40-135 on what a caller passes: line 41, then lines 43-48 and
    line 56, which may throw, then the loop on the prepared values. *)
Definition request_call (cw : CallWorld) (settings : CallSettings) : Prog Response :=
  incr_activeRequests;;
  prepared ← lift (prepared_settings settings);
  headers ← lift (match new_Headers (call_headers cw) with
                  | inr h => Normal h
                  | inl m => Throw (TypeError m)
                  end);
  r ← attempts (prepared_world cw headers) prepared (S (maxAttempts prepared)) 0;
  match r with
  | Some response => mret response
  | None => decr_activeRequests;; throw ResponseError_default
  end.

(** ** Reading traces *)

(** The loop iteration an event belongs to; [sleep] belongs to none. *)
Definition event_iter (e : Event) : option nat :=
  match e with
  | EvNewAbortController c | EvAddEventListener c | EvRemoveEventListener c
  | EvSetTimeout c _ | EvClearTimeout c => Some c
  | EvFetch _ init => Some (init_signal init)
  | EvSleep _ => None
  end.

Definition is_fetch (e : Event) : bool :=
  match e with EvFetch _ _ => true | _ => false end.

(** Number of [fetch] calls in a trace. *)
Definition fetch_count (t : list Event) : nat := length (List.filter is_fetch t).

(** The delays of the [sleep] calls of a trace, in order. *)
Fixpoint sleeps (t : list Event) : list Z :=
  match t with
  | [] => []
  | EvSleep ms :: rest => ms :: sleeps rest
  | _ :: rest => sleeps rest
  end.

(** The controllers created in a trace, in order. *)
Fixpoint controllers (t : list Event) : list nat :=
  match t with
  | [] => []
  | EvNewAbortController c :: rest => c :: controllers rest
  | _ :: rest => controllers rest
  end.

(** Total time spent in [sleep], in milliseconds. *)
Definition total_sleep (t : list Event) : Z := fold_right Z.add 0 (sleeps t).


(** *** Shape of the trace of one iteration *)

Section TraceShape.

Variable w : World.
Variable s : RequestSettings.

Definition listener (ev : nat -> Event) (k : nat) : list Event :=
  match abortSignal s with
  | Some _ => [ev k]
  | None => []
  end.

(** Lines 65-92: up to and including the [fetch] call. *)
Definition started (k : nat) : list Event :=
  EvNewAbortController k :: listener EvAddEventListener k
    ++ [EvSetTimeout k (baseTimeout s); EvFetch (url s) (fetch_options w s k)].

(** Lines 94-95 and 101-102. *)
Definition cleanup (k : nat) : list Event :=
  EvClearTimeout k :: listener EvRemoveEventListener k.

(** An iteration that fails, backs off and continues. *)
Definition retried (k : nat) : list Event :=
  started k ++ cleanup k ++ [EvSleep (backoff k)].

(** The check of lines 73-77 does not throw. *)
Definition passes_precheck (k : nat) : Prop :=
  abortSignal s = None \/ aborted_at_start (browser w k) = false.

(** Iteration [k] ends in [continue], whatever the counter is. *)
Definition retries (k : nat) : Prop :=
  forall c, attempt_body w s k c = MkRun (Normal (LContinue (S k))) c (retried k).

End TraceShape.

(** *** The loop and the call *)

(** Lines 99 and 133-134: what the call does with the outcome of the loop. *)
Definition finish (r : Run (option Response)) : Run Response :=
  match r with
  | MkRun (Normal (Some response)) c t => MkRun (Normal response) c t
  | MkRun (Normal None) c t => MkRun (Throw ResponseError_default) (c - 1) t
  | MkRun (Throw e) c t => MkRun (Throw e) c t
  | MkRun OutOfFuel c t => MkRun OutOfFuel c t
  end.

(** One unfolding of the loop. *)
Definition loop_step (w : World) (s : RequestSettings) (fuel : nat) (r : Run LoopCtl)
  : Run (option Response) :=
  match r with
  | MkRun (Normal (LReturn response)) c t => MkRun (Normal (Some response)) c t
  | MkRun (Normal (LContinue a')) c t => after t (attempts w s fuel a' c)
  | MkRun (Throw e) c t => MkRun (Throw e) c t
  | MkRun OutOfFuel c t => MkRun OutOfFuel c t
  end.

(** The call's outcome when the iteration that produced [r] is the last. *)
Definition final (r : Run LoopCtl) : Run Response :=
  match r with
  | MkRun (Normal (LReturn response)) c t => MkRun (Normal response) c t
  | MkRun (Normal (LContinue _)) c t => MkRun OutOfFuel c t
  | MkRun (Throw e) c t => MkRun (Throw e) c t
  | MkRun OutOfFuel c t => MkRun OutOfFuel c t
  end.

(** ** Concrete settings and browsers *)

Definition response_with (code : Z) : Response := {| status := code; content := "body" |}.

(** A browser that plays the given script, one entry per iteration, and
    afterwards resolves every [fetch] with status 200. *)
Definition world_of (script : list AttemptEnv) : World :=
  {| defaults := defaults_initial;
     browser := fun k =>
       nth k script {| aborted_at_start := false;
                       settled := Resolved (response_with 200);
                       aborted_at_settle := false |} |}.

Definition resolves (code : Z) : AttemptEnv :=
  {| aborted_at_start := false; settled := Resolved (response_with code);
     aborted_at_settle := false |}.

Definition rejects (e : JsError) : AttemptEnv :=
  {| aborted_at_start := false; settled := Rejected e; aborted_at_settle := false |}.

(** The user aborts while [fetch] is in flight. *)
Definition user_aborts : AttemptEnv :=
  {| aborted_at_start := false; settled := Rejected (DOMException "AbortError");
     aborted_at_settle := true |}.


Definition get_products : RequestSettings :=
  {| accept := json; url := "/products"; abortSignal := None; timeoutMs := None;
     method := GET; data := None |}.

Definition get_cancellable : RequestSettings :=
  {| accept := html; url := "/products"; abortSignal := Some UserSignal;
     timeoutMs := Some 5000; method := GET; data := None |}.

Definition post_record : RequestSettings :=
  {| accept := json; url := "/products"; abortSignal := None; timeoutMs := None;
     method := POST;
     data := Some (PRecord [("name", JString "pen"); ("price", num 3 I)]) |}.

Definition post_form : RequestSettings :=
  {| accept := json; url := "/upload"; abortSignal := None; timeoutMs := None;
     method := POST; data := Some (PFormData [("file", "contents")]) |}.

Definition delete_nothing : RequestSettings :=
  {| accept := csv; url := "/products/1"; abortSignal := None; timeoutMs := Some 100;
     method := DELETE; data := None |}.

Definition world_timeout_then_ok : World :=
  world_of [rejects (DOMException "AbortError"); resolves 200].

Definition world_network_twice : World :=
  world_of [rejects (TypeError "Failed to fetch"); rejects (TypeError "Failed to fetch");
            resolves 200].


Definition world_mixed_failures : World :=
  world_of [rejects (TypeError "Failed to fetch"); rejects (DOMException "AbortError");
            rejects (TypeError "Failed to fetch")].

(** A [defaults] object as an application sets it up. *)
Definition defaults_csrf : RequestInit :=
  {| defaults_headers := {["x-csrf-token" := "t0k3n"]};
     defaults_rest := [("credentials", "same-origin")] |}.

Definition world_csrf : World :=
  {| defaults := defaults_csrf; browser := browser (world_of []) |}.

(** *** Calls with any payload *)

(** The text with every apostrophe replaced by a double quote. *)
Fixpoint dq (s : string) : string :=
  match s with
  | EmptyString => EmptyString
  | String c rest => String (if (N_of_ascii c =? 39)%N then dquote else c) (dq rest)
  end.













(** * Proofs *)

Ltac unfold_prog :=
  unfold attempt_body, fetch, sleep, when, emit, throw, out_of_fuel, try_catch,
    incr_activeRequests, decr_activeRequests, mbind, mret, Prog_bind, Prog_ret, after in *.

Ltac simpl_run :=
  cbn [completion activeRequests trace app andb negb orb
       instanceof_DOMException instanceof_ResponseError instanceof_TypeError error_name] in *.

(** Case analysis on everything one iteration branches on. *)
Ltac body_cases :=
  unfold_prog;
  repeat (simpl_run; case_match; simplify_eq; try done);
  simpl_run.

Lemma Method_eqb_GET m : Method_eqb m GET = true <-> m = GET.
Proof. by destruct m. Qed.

Lemma Method_eqb_not_GET m : Method_eqb m GET = false <-> m <> GET.
Proof. by destruct m. Qed.

(** Case analysis on membership in an explicit list. *)
Ltac in_cases H :=
  repeat (apply elem_of_cons in H as [H|H]; [simplify_eq|]);
  try (apply elem_of_nil in H; destruct H).

(** ** One iteration *)

Section Shape.

Variable w : World.
Variable s : RequestSettings.

Ltac shape :=
  unfold retried, started, cleanup, listener;
  repeat match goal with H : abortSignal s = _ |- _ => rewrite H end;
  cbn [app]; rewrite ?Nat.add_1_r; try reflexivity.

Lemma attempt_body_fuel k c : completion (attempt_body w s k c) <> OutOfFuel.
Proof. body_cases. Qed.

Lemma attempt_body_pre_aborted k c sig :
  abortSignal s = Some sig ->
  aborted_at_start (browser w k) = true ->
  attempt_body w s k c = MkRun (Throw AbortError) (c - 1) [EvNewAbortController k].
Proof. intros Hsig Hab. unfold_prog. rewrite Hsig, Hab. reflexivity. Qed.

(** An iteration that ends in [continue] has incremented [attempt] while
    attempts were left, on a GET, and has the trace [retried]. *)
Lemma attempt_body_continue k c a' :
  completion (attempt_body w s k c) = Normal (LContinue a') ->
  a' = S k /\ (S k < maxAttempts s)%nat /\ isGET s = true /\ retries w s k.
Proof.
  intros H.
  assert (a' = S k /\ (S k < maxAttempts s)%nat /\ isGET s = true) as (-> & Hlt & Hget).
  { revert H. body_cases; intros [= <-]; rewrite Nat.add_1_r;
      repeat match goal with
             | H : _ && _ = true |- _ => apply andb_prop in H as [? ?]
             | H : (_ <? _)%nat = true |- _ => apply Nat.ltb_lt in H
             end; repeat split; (lia || done). }
  repeat split; try done.
  intros c'. revert H. body_cases; shape.
Qed.

(** Every event of iteration [k] names controller [k], except its
    back-off [sleep]. *)
Lemma attempt_body_events k c :
  Forall (fun e => event_iter e = Some k \/ e = EvSleep (backoff k))
         (trace (attempt_body w s k c)).
Proof.
  body_cases;
    repeat first [ apply Forall_nil_2
                 | apply Forall_cons_2; [(left; reflexivity) || (right; reflexivity)|] ].
Qed.

Lemma attempt_body_counter k c :
  activeRequests (attempt_body w s k c) =
    match abortSignal s with
    | Some _ => if aborted_at_start (browser w k) then c - 1 else c
    | None => c
    end.
Proof. body_cases. Qed.

Lemma attempt_body_fetch k c u i :
  EvFetch u i ∈ trace (attempt_body w s k c) ->
  u = url s /\ i = fetch_options w s k /\ passes_precheck w s k.
Proof. unfold passes_precheck. intros Hmem. body_cases; in_cases Hmem; eauto. Qed.

Lemma attempt_body_timer k c j ms :
  EvSetTimeout j ms ∈ trace (attempt_body w s k c) -> j = k /\ ms = baseTimeout s.
Proof. intros Hmem. body_cases; in_cases Hmem; eauto. Qed.

Lemma attempt_body_sleep k c ms :
  EvSleep ms ∈ trace (attempt_body w s k c) ->
  ms = backoff k /\ completion (attempt_body w s k c) = Normal (LContinue (S k)).
Proof. intros Hmem. body_cases; in_cases Hmem; by rewrite Nat.add_1_r. Qed.

Lemma attempt_body_started k c :
  passes_precheck w s k ->
  exists tail, trace (attempt_body w s k c) = started w s k ++ cleanup s k ++ tail.
Proof.
  unfold passes_precheck. intros [Hp|Hp]; body_cases; shape; eauto.
Qed.

(** Outcome of an iteration by how [fetch] settles. *)

Ltac precheck H :=
  unfold passes_precheck in H; unfold_prog;
  destruct (abortSignal s) as [sig'|] eqn:Hsig';
  [destruct H as [?|H]; [done|]; rewrite H|clear H].

Lemma attempt_body_resolved k c r :
  passes_precheck w s k ->
  settled (browser w k) = Resolved r ->
  attempt_body w s k c =
    MkRun (if 500 <=? status r then Throw ResponseError_default
           else if status r =? 429
           then Throw (ResponseError "Something went wrong, please try again after some time.")
           else Normal (LReturn r))
          c
          (started w s k ++ cleanup s k ++
             (if (500 <=? status r) || (status r =? 429) then cleanup s k else [])).
Proof.
  intros Hp Hs. precheck Hp; rewrite Hs; simpl_run;
    destruct (500 <=? status r), (status r =? 429); simpl_run; shape.
Qed.

Lemma attempt_body_aborted_by_user k c sig :
  passes_precheck w s k ->
  settled (browser w k) = Rejected (DOMException "AbortError") ->
  abortSignal s = Some sig ->
  aborted_at_settle (browser w k) = true ->
  attempt_body w s k c = MkRun (Throw AbortError) c (started w s k ++ cleanup s k).
Proof.
  intros Hp Hs Hsig Hab. precheck Hp; [|done]. rewrite Hs, Hab. simpl_run. shape.
Qed.

Lemma attempt_body_timeout_retry k :
  passes_precheck w s k ->
  settled (browser w k) = Rejected (DOMException "AbortError") ->
  abortSignal s = None \/ aborted_at_settle (browser w k) = false ->
  method s = GET -> (S k < maxAttempts s)%nat ->
  retries w s k.
Proof.
  intros Hp Hs Hno Hget Hlt c.
  assert ((k <? maxAttempts s - 1)%nat = true) as Hlt' by (apply Nat.ltb_lt; lia).
  assert (isGET s = true) as Hget' by (unfold isGET; by rewrite Hget).
  precheck Hp; rewrite Hs, Hlt', Hget'; simpl_run.
  - destruct Hno as [Hno| ->]; [done|]. simpl_run. shape.
  - shape.
Qed.

Lemma attempt_body_timeout_final k c :
  passes_precheck w s k ->
  settled (browser w k) = Rejected (DOMException "AbortError") ->
  abortSignal s = None \/ aborted_at_settle (browser w k) = false ->
  method s <> GET \/ ~ (S k < maxAttempts s)%nat ->
  attempt_body w s k c = MkRun (Throw TimeoutError) c (started w s k ++ cleanup s k).
Proof.
  intros Hp Hs Hno Hfin.
  assert ((k <? maxAttempts s - 1)%nat && isGET s = false) as Hcond.
  { apply andb_false_iff. destruct Hfin as [Hm|Hlt].
    - right. by apply Method_eqb_not_GET.
    - left. apply Nat.ltb_nlt. lia. }
  precheck Hp; rewrite Hs, Hcond; simpl_run.
  - destruct Hno as [Hno| ->]; [done|]. simpl_run. shape.
  - shape.
Qed.

Lemma attempt_body_network_retry k message :
  passes_precheck w s k ->
  settled (browser w k) = Rejected (TypeError message) ->
  method s = GET -> (S k < maxAttempts s)%nat ->
  retries w s k.
Proof.
  intros Hp Hs Hget Hlt c.
  assert ((k <? maxAttempts s - 1)%nat = true) as Hlt' by (apply Nat.ltb_lt; lia).
  assert (isGET s = true) as Hget' by (unfold isGET; by rewrite Hget).
  precheck Hp; rewrite Hs, Hlt', Hget'; simpl_run; shape.
Qed.

(** A rejected [fetch] with no attempt left, or on a method other than
    GET, ends the call with a throw and without a back-off. *)
Lemma attempt_body_rejected_final k c e :
  passes_precheck w s k ->
  settled (browser w k) = Rejected e ->
  method s <> GET \/ ~ (S k < maxAttempts s)%nat ->
  exists e', attempt_body w s k c = MkRun (Throw e') c (started w s k ++ cleanup s k).
Proof.
  intros Hp Hs Hfin.
  assert ((k <? maxAttempts s - 1)%nat && isGET s = false) as Hcond.
  { apply andb_false_iff. destruct Hfin as [Hm|Hlt].
    - right. by apply Method_eqb_not_GET.
    - left. apply Nat.ltb_nlt. lia. }
  precheck Hp; rewrite Hs; rewrite <- ?andb_assoc, Hcond, ?andb_false_r; simpl_run;
    repeat (simpl_run; case_match; simplify_eq; try done); simpl_run; eexists; shape.
Qed.

Lemma attempt_body_network_final k c message :
  passes_precheck w s k ->
  settled (browser w k) = Rejected (TypeError message) ->
  method s <> GET \/ ~ (S k < maxAttempts s)%nat ->
  attempt_body w s k c = MkRun (Throw ResponseError_default) c (started w s k ++ cleanup s k).
Proof.
  intros Hp Hs Hfin.
  assert ((k <? maxAttempts s - 1)%nat && isGET s = false) as Hcond.
  { apply andb_false_iff. destruct Hfin as [Hm|Hlt].
    - right. by apply Method_eqb_not_GET.
    - left. apply Nat.ltb_nlt. lia. }
  precheck Hp; rewrite Hs; simpl_run; rewrite Hcond; simpl_run; shape.
Qed.

Lemma fetch_count_app t1 t2 : fetch_count (t1 ++ t2) = (fetch_count t1 + fetch_count t2)%nat.
Proof. unfold fetch_count. by rewrite List.filter_app, length_app. Qed.

Lemma sleeps_app t1 t2 : sleeps (t1 ++ t2) = sleeps t1 ++ sleeps t2.
Proof.
  induction t1 as [|e t1 IH]; [done|]. destruct e; cbn; by rewrite ?IH.
Qed.

Lemma fetch_count_retried k : fetch_count (retried w s k) = 1%nat.
Proof. unfold retried, started, cleanup, listener. by destruct (abortSignal s). Qed.

Lemma sleeps_retried k : sleeps (retried w s k) = [backoff k].
Proof. unfold retried, started, cleanup, listener. by destruct (abortSignal s). Qed.

Lemma fetch_count_retried_prefix a n :
  fetch_count (flat_map (retried w s) (seq a n)) = n.
Proof.
  revert a. induction n as [|n IH]; intros a; [done|].
  cbn [seq flat_map]. by rewrite fetch_count_app, fetch_count_retried, IH.
Qed.

Lemma sleeps_retried_prefix a n :
  sleeps (flat_map (retried w s) (seq a n)) = List.map backoff (seq a n).
Proof.
  revert a. induction n as [|n IH]; intros a; [done|].
  cbn [seq flat_map List.map]. by rewrite sleeps_app, sleeps_retried, IH.
Qed.

Lemma fetch_count_started k : fetch_count (started w s k ++ cleanup s k) = 1%nat.
Proof. unfold started, cleanup, listener. by destruct (abortSignal s). Qed.

Lemma sleeps_started k : sleeps (started w s k ++ cleanup s k) = [].
Proof. unfold started, cleanup, listener. by destruct (abortSignal s). Qed.

(** An iteration calls [fetch] at most once, and exactly once when it
    gets past the signal check. *)
Lemma attempt_body_fetch_count k c :
  (fetch_count (trace (attempt_body w s k c)) <= 1)%nat /\
  (passes_precheck w s k -> fetch_count (trace (attempt_body w s k c)) = 1%nat).
Proof.
  unfold passes_precheck, fetch_count.
  body_cases; cbn; (split; [lia|]); try done; by intros [|].
Qed.

(** An iteration that does not end in [continue] does not sleep. *)
Lemma attempt_body_no_sleep k c :
  (forall a', completion (attempt_body w s k c) <> Normal (LContinue a')) ->
  sleeps (trace (attempt_body w s k c)) = [].
Proof. body_cases. all: intros Hno; by destruct (Hno (k + 1)%nat). Qed.

End Shape.

(** ** The loop and the call *)

Lemma after_nil {A} (r : Run A) : after [] r = r.
Proof. by destruct r. Qed.

Lemma after_app {A} l1 l2 (r : Run A) : after (l1 ++ l2) r = after l1 (after l2 r).
Proof. destruct r; cbn. by rewrite app_assoc. Qed.

Lemma trace_after {A} l (r : Run A) : trace (after l r) = l ++ trace r.
Proof. by destruct r. Qed.

Lemma completion_after {A} l (r : Run A) : completion (after l r) = completion r.
Proof. by destruct r. Qed.

Lemma activeRequests_after {A} l (r : Run A) : activeRequests (after l r) = activeRequests r.
Proof. by destruct r. Qed.

Lemma finish_after l r : finish (after l r) = after l (finish r).
Proof. by destruct r as [[[?|]| |] ? ?]. Qed.

Lemma trace_finish r : trace (finish r) = trace r.
Proof. by destruct r as [[[?|]| |] ? ?]. Qed.

Lemma trace_final r : trace (final r) = trace r.
Proof. by destruct r as [[[?|?]| |] ? ?]. Qed.

Section Loop.

Variable w : World.
Variable s : RequestSettings.

Lemma request_eq c :
  request w s c = finish (attempts w s (S (maxAttempts s)) 0 (c + 1)).
Proof.
  unfold request, incr_activeRequests, decr_activeRequests, throw, mbind, mret,
    Prog_bind, Prog_ret.
  destruct (attempts _ _ _ _ _) as [[[?|]| |] ? ?]; cbn; by rewrite ?app_nil_r.
Qed.

Lemma attempts_unfold fuel k c :
  (k < maxAttempts s)%nat ->
  attempts w s (S fuel) k c = loop_step w s fuel (attempt_body w s k c).
Proof.
  intros Hk. cbn [attempts]. apply Nat.ltb_lt in Hk as ->.
  unfold mbind, mret, Prog_bind, Prog_ret, loop_step.
  destruct (attempt_body w s k c) as [[[?|?]| |] ? ?]; cbn; by rewrite ?app_nil_r.
Qed.

Lemma attempts_retry fuel k c :
  retries w s k ->
  attempts w s (S fuel) k c = after (retried w s k) (attempts w s fuel (S k) c).
Proof.
  intros Hr. destruct (attempt_body_continue w s k c (S k)) as (_ & Hlt & _).
  { by rewrite Hr. }
  rewrite attempts_unfold by lia. by rewrite Hr.
Qed.

(** When iteration [k] does not end in [continue], it settles the call. *)
Lemma attempts_last fuel k c :
  (k < maxAttempts s)%nat ->
  (forall a', completion (attempt_body w s k c) <> Normal (LContinue a')) ->
  finish (attempts w s (S fuel) k c) = final (attempt_body w s k c).
Proof.
  intros Hk Hlast. rewrite attempts_unfold by done.
  destruct (attempt_body w s k c) as [[[?|a']| |] ? ?]; cbn in *; try done.
  by destruct (Hlast a').
Qed.

Lemma attempt_body_head k c :
  exists t, trace (attempt_body w s k c) = EvNewAbortController k :: t.
Proof. body_cases; eauto. Qed.

Lemma attempts_head fuel k c :
  (k < maxAttempts s)%nat ->
  exists t, trace (attempts w s (S fuel) k c) = EvNewAbortController k :: t.
Proof.
  intros Hk. rewrite attempts_unfold by done.
  destruct (attempt_body_head k c) as [t Ht].
  destruct (attempt_body w s k c) as [[[?|a']| |] ? tr]; cbn in *; subst; eauto.
  rewrite trace_after. cbn. eauto.
Qed.

Lemma retried_events k e :
  e ∈ retried w s k -> event_iter e = Some k \/ e = EvSleep (backoff k).
Proof.
  unfold retried, started, cleanup, listener.
  destruct (abortSignal s); cbn; rewrite ?elem_of_cons, elem_of_nil;
    intros H; repeat destruct H as [->|H]; by eauto.
Qed.

Lemma retried_prefix_events a n e :
  e ∈ flat_map (retried w s) (seq a n) ->
  (exists j, (a <= j < a + n)%nat /\ event_iter e = Some j) \/
  (exists j, (a <= j < a + n)%nat /\ e = EvSleep (backoff j)).
Proof.
  rewrite list_elem_of_In, in_flat_map. intros (j & Hj%in_seq & He).
  apply list_elem_of_In, retried_events in He as [He|He];
    [left|right]; exists j; split; (lia || done).
Qed.

(** Events of iteration [a] do not name another controller. *)
Lemma attempt_body_other_controller a c k :
  k <> a -> EvNewAbortController k ∉ trace (attempt_body w s a c).
Proof.
  intros Hk Hin. pose proof (attempt_body_events w s a c) as Hall.
  rewrite Forall_forall in Hall. destruct (Hall _ Hin) as [[=]|[=]]. done.
Qed.

(** If the loop, started at iteration [a], gets to create controller [k],
    then all iterations from [a] up to [k] were retried, and the run is
    their traces followed by the loop from [k]. *)
Lemma attempts_reaches fuel : forall a c k,
  EvNewAbortController k ∈ trace (attempts w s fuel a c) ->
  (a <= k < maxAttempts s)%nat /\ (k - a < fuel)%nat /\
  (forall j, (a <= j < k)%nat -> retries w s j) /\
  attempts w s fuel a c =
    after (flat_map (retried w s) (seq a (k - a))) (attempts w s (fuel - (k - a)) k c).
Proof.
  induction fuel as [|fuel IH]; intros a c k Hin.
  { cbn in Hin. by apply elem_of_nil in Hin. }
  destruct (decide (a < maxAttempts s)%nat) as [Ha|Ha].
  2:{ cbn [attempts] in Hin. apply Nat.ltb_nlt in Ha. rewrite Ha in Hin.
      cbn in Hin. by apply elem_of_nil in Hin. }
  destruct (decide (k = a)) as [->|Hk].
  { replace (a - a)%nat with 0%nat by lia. cbn [seq flat_map].
    rewrite after_nil, Nat.sub_0_r. repeat split; (lia || done). }
  rewrite attempts_unfold in Hin by done.
  pose proof (attempt_body_other_controller a c k Hk) as Hnot.
  destruct (attempt_body w s a c) as [[[r|a']| |] c' t] eqn:Hbody;
    cbn [loop_step trace] in Hin, Hnot; try done.
  destruct (attempt_body_continue w s a c a') as (-> & Hlt & _ & Hr).
  { by rewrite Hbody. }
  rewrite Hr in Hbody. injection Hbody as <- <-.
  rewrite trace_after, elem_of_app in Hin. destruct Hin as [Hin|Hin]; [done|].
  destruct (IH _ _ _ Hin) as (Hrange & Hfuel & Hret & Heq).
  split; [lia|]. split; [lia|]. split.
  { intros j Hj. destruct (decide (j = a)) as [->|]; [done|]. apply Hret. lia. }
  rewrite attempts_retry by done. rewrite Heq.
  replace (k - a)%nat with (S (k - S a)) by lia.
  cbn [seq flat_map]. by rewrite after_app.
Qed.

(** The same for the whole call: when controller [k] is created, the
    call's run is the [k] retried iterations followed by the loop from
    iteration [k], with the counter one above its value at entry. *)
Lemma request_reaches c k :
  EvNewAbortController k ∈ trace (request w s c) ->
  (k < maxAttempts s)%nat /\
  (forall j, (j < k)%nat -> retries w s j) /\
  request w s c =
    after (flat_map (retried w s) (seq 0 k))
          (finish (attempts w s (S (maxAttempts s - k)) k (c + 1))).
Proof.
  rewrite request_eq, trace_finish. intros Hin.
  destruct (attempts_reaches _ _ _ _ Hin) as (Hrange & Hfuel & Hret & Heq).
  rewrite Nat.sub_0_r in *. split; [lia|]. split; [intros j Hj; apply Hret; lia|].
  rewrite Heq, finish_after.
  by replace (S (maxAttempts s) - k)%nat with (S (maxAttempts s - k)) by lia.
Qed.


(** When iteration [k] runs and does not end in [continue], its outcome
    is the call's, and no later iteration runs. *)
Lemma request_last c k :
  EvNewAbortController k ∈ trace (request w s c) ->
  (forall a', completion (attempt_body w s k (c + 1)) <> Normal (LContinue a')) ->
  request w s c =
    after (flat_map (retried w s) (seq 0 k)) (final (attempt_body w s k (c + 1))).
Proof.
  intros (Hk & _ & ->)%request_reaches Hlast. by rewrite attempts_last.
Qed.

Lemma request_no_later c k j :
  EvNewAbortController k ∈ trace (request w s c) ->
  (forall a', completion (attempt_body w s k (c + 1)) <> Normal (LContinue a')) ->
  (k < j)%nat ->
  EvNewAbortController j ∉ trace (request w s c).
Proof.
  intros Hin Hlast Hj. rewrite (request_last c k Hin Hlast).
  rewrite trace_after, trace_final, elem_of_app.
  intros [[(i & Hi & [= ->])|(i & _ & [=])]%retried_prefix_events|Hb]; [lia|].
  revert Hb. apply attempt_body_other_controller. lia.
Qed.

(** When iteration [k] runs and ends in [continue], the call sleeps for
    the back-off delay and iteration [k + 1] runs. *)
Lemma request_continues c k :
  EvNewAbortController k ∈ trace (request w s c) ->
  retries w s k ->
  exists pre post,
    trace (request w s c) =
      pre ++ EvSleep (backoff k) :: EvNewAbortController (S k) :: post.
Proof.
  intros (Hk & _ & ->)%request_reaches Hr.
  destruct (attempt_body_continue w s k 0 (S k)) as (_ & Hlt & _).
  { by rewrite Hr. }
  rewrite attempts_retry by done.
  replace (maxAttempts s - k)%nat with (S (maxAttempts s - S k)) by lia.
  destruct (attempts_head (maxAttempts s - S k) (S k) (c + 1) Hlt) as [t Ht].
  rewrite trace_after, finish_after, trace_after, trace_finish, Ht.
  exists (flat_map (retried w s) (seq 0 k) ++ started w s k ++ cleanup s k), t.
  unfold retried. by rewrite <- !app_assoc.
Qed.

(** The loop never runs out of fuel and, from an iteration below
    [maxAttempts], never falls through: lines 133-134 are not reached. *)
Lemma attempts_settles fuel : forall a c,
  (maxAttempts s - a < fuel)%nat -> (a < maxAttempts s)%nat ->
  (exists r, completion (attempts w s fuel a c) = Normal (Some r)) \/
  (exists e, completion (attempts w s fuel a c) = Throw e).
Proof.
  induction fuel as [|fuel IH]; intros a c Hfuel Ha; [lia|].
  rewrite attempts_unfold by done.
  pose proof (attempt_body_fuel w s a c) as Hnf.
  destruct (attempt_body w s a c) as [[[r|a']| |] c' t] eqn:Hbody; cbn in *; eauto; [|done].
  destruct (attempt_body_continue w s a c a') as (-> & Hlt & _).
  { by rewrite Hbody. }
  rewrite completion_after. apply IH; lia.
Qed.

Lemma request_settles c :
  (exists r, completion (request w s c) = Normal r) \/
  (exists e, completion (request w s c) = Throw e).
Proof.
  rewrite request_eq.
  destruct (attempts_settles (S (maxAttempts s)) 0 (c + 1)) as [[r Hr]|[e He]].
  - lia.
  - unfold maxAttempts. destruct (Method_eqb _ _); lia.
  - left. exists r. destruct (attempts _ _ _ _ _) as [? ? ?]; cbn in *. by subst.
  - right. exists e. destruct (attempts _ _ _ _ _) as [? ? ?]; cbn in *. by subst.
Qed.

(** Every event of the loop is an event of an iteration that ran. *)
Lemma attempts_event_origin fuel : forall a c e,
  e ∈ trace (attempts w s fuel a c) ->
  exists k, EvNewAbortController k ∈ trace (attempts w s fuel a c) /\
            e ∈ trace (attempt_body w s k c).
Proof.
  induction fuel as [|fuel IH]; intros a c e Hin.
  { cbn in Hin. by apply elem_of_nil in Hin. }
  destruct (decide (a < maxAttempts s)%nat) as [Ha|Ha].
  2:{ cbn [attempts] in Hin. apply Nat.ltb_nlt in Ha. rewrite Ha in Hin.
      cbn in Hin. by apply elem_of_nil in Hin. }
  rewrite attempts_unfold in * by done.
  destruct (attempt_body_head a c) as [t0 Hhead].
  destruct (attempt_body w s a c) as [[[r|a']| |] c' t] eqn:Hbody;
    cbn [loop_step trace] in *; subst t.
  1,3,4: exists a; rewrite Hbody; split; [apply elem_of_cons; by left|done].
  destruct (attempt_body_continue w s a c a') as (-> & _ & _ & Hr).
  { by rewrite Hbody. }
  pose proof Hbody as Hbody'. rewrite Hr in Hbody'. injection Hbody' as <- Ht.
  rewrite trace_after, elem_of_app in Hin. rewrite trace_after.
  destruct Hin as [Hin|Hin].
  - exists a. rewrite Hbody. split; [apply elem_of_cons; by left|done].
  - destruct (IH _ _ _ Hin) as (k & Hk & He). exists k. split; [|done].
    apply elem_of_app. by right.
Qed.

Lemma request_event_origin c e :
  e ∈ trace (request w s c) ->
  exists k, EvNewAbortController k ∈ trace (request w s c) /\
            e ∈ trace (attempt_body w s k (c + 1)).
Proof. rewrite request_eq, trace_finish. apply attempts_event_origin. Qed.

Lemma trace_loop_step fuel r :
  exists rest, trace (loop_step w s fuel r) = trace r ++ rest.
Proof.
  destruct r as [[[?|a']| |] c' t]; cbn; try (exists []; by rewrite app_nil_r).
  rewrite trace_after. eauto.
Qed.

(** The trace of a call up to and including iteration [k]. *)
Lemma request_trace_through c k :
  EvNewAbortController k ∈ trace (request w s c) ->
  exists rest,
    trace (request w s c) =
      flat_map (retried w s) (seq 0 k) ++ trace (attempt_body w s k (c + 1)) ++ rest.
Proof.
  intros (Hk & _ & ->)%request_reaches.
  rewrite trace_after, trace_finish, attempts_unfold by done.
  destruct (trace_loop_step (maxAttempts s - k) (attempt_body w s k (c + 1))) as [rest ->].
  eauto.
Qed.

(** A [fetch] in the trace was issued by an iteration that ran and got
    past the signal check. *)
Lemma request_fetch_issued c k :
  EvFetch (url s) (fetch_options w s k) ∈ trace (request w s c) ->
  EvNewAbortController k ∈ trace (request w s c) /\ passes_precheck w s k.
Proof.
  intros (j & Hj & Hin)%request_event_origin.
  apply attempt_body_fetch in Hin as (_ & Heq & Hp).
  assert (k = j) as -> by (by injection Heq). done.
Qed.

(** The call's run when iteration [k] runs and throws. *)
Lemma request_throws_at c k e t :
  EvNewAbortController k ∈ trace (request w s c) ->
  (forall c', attempt_body w s k c' = MkRun (Throw e) c' t) ->
  request w s c = MkRun (Throw e) (c + 1) (flat_map (retried w s) (seq 0 k) ++ t).
Proof.
  intros Hk Hbody. rewrite (request_last c k Hk); by rewrite Hbody.
Qed.

(** Every call has a last iteration: the iterations before it were
    retried, and its outcome is the outcome of the call. *)
Lemma attempts_shape fuel : forall a c,
  (maxAttempts s - a < fuel)%nat -> (a < maxAttempts s)%nat ->
  exists k,
    (a <= k < maxAttempts s)%nat /\
    (forall j, (a <= j < k)%nat -> retries w s j) /\
    (forall a', completion (attempt_body w s k c) <> Normal (LContinue a')) /\
    finish (attempts w s fuel a c) =
      after (flat_map (retried w s) (seq a (k - a))) (final (attempt_body w s k c)).
Proof.
  induction fuel as [|fuel IH]; intros a c Hfuel Ha; [lia|].
  destruct (completion (attempt_body w s a c)) as [[r|a']| |] eqn:Hc.
  2:{ destruct (attempt_body_continue w s a c a' Hc) as (-> & Hlt & _ & Hr).
      destruct (IH (S a) c) as (k & Hk & Hret & Hlast & Heq); [lia..|].
      exists k. split; [lia|]. split.
      { intros j Hj. destruct (decide (j = a)) as [->|]; [done|]. apply Hret. lia. }
      split; [done|].
      rewrite attempts_retry, finish_after, Heq by done.
      replace (k - a)%nat with (S (k - S a)) by lia.
      cbn [seq flat_map]. by rewrite after_app. }
  all: exists a; split; [lia|]; split; [intros j Hj; lia|];
    rewrite Nat.sub_diag; cbn [seq flat_map]; rewrite after_nil.
  all: assert (forall a', completion (attempt_body w s a c) <> Normal (LContinue a'))
         as Hlast by (intros a'; by rewrite Hc).
  all: split; [done|]; by apply attempts_last.
Qed.

Lemma maxAttempts_pos : (0 < maxAttempts s)%nat.
Proof. unfold maxAttempts. destruct (Method_eqb _ _); lia. Qed.

Lemma request_shape c :
  exists k,
    (k < maxAttempts s)%nat /\
    (forall j, (j < k)%nat -> retries w s j) /\
    (forall a', completion (attempt_body w s k (c + 1)) <> Normal (LContinue a')) /\
    request w s c =
      after (flat_map (retried w s) (seq 0 k)) (final (attempt_body w s k (c + 1))).
Proof.
  destruct (attempts_shape (S (maxAttempts s)) 0 (c + 1)) as (k & Hk & Hret & Hlast & Heq).
  { lia. } { apply maxAttempts_pos. }
  exists k. rewrite Nat.sub_0_r in Heq. rewrite request_eq.
  split; [lia|]. split; [intros j Hj; apply Hret; lia|]. done.
Qed.

End Loop.

(** * Properties *)

(** ** Preparation *)

(** The JSON text of a record is never the empty string. *)
Lemma stringify_object_nonempty fields :
  exists ch rest, stringify_value (JObject fields) = String ch rest.
Proof. cbn. eauto. Qed.



(** C10.  [request] adds [Content-Type] only when the prepared body is
    truthy and not a [FormData].  For a method other than GET with no
    payload, [JSON.stringify(undefined)] is [undefined]: the body passed to
    every [fetch] is [undefined] and [request] does not set
    [Content-Type]. *)
Theorem request_absent_payload (w : World) (s : RequestSettings) (c : Z) :
  (truthy (prepare_data s) && negb (instanceof_FormData (prepare_data s)) = false ->
   prepare_headers (defaults w) s =
     Headers_set "Accept" (acceptType s) (defaults_headers (defaults w))) /\
  (method s <> GET -> data s = None ->
   JSON_stringify None = None /\
   prepare_data s = BodyUndefined /\
   prepare_headers (defaults w) s =
     Headers_set "Accept" (acceptType s) (defaults_headers (defaults w)) /\
   Headers_get "Content-Type" (prepare_headers (defaults w) s) =
     Headers_get "Content-Type" (defaults_headers (defaults w)) /\
   forall target init, EvFetch target init ∈ trace (request w s c) ->
     init_body init = BodyUndefined /\
     init_headers init =
       Headers_set "Accept" (acceptType s) (defaults_headers (defaults w))).
Proof.
  split.
  { intros Hf. unfold prepare_headers. by rewrite Hf. }
  intros Hm%Method_eqb_not_GET Hd.
  assert (prepare_data s = BodyUndefined) as Hbody.
  { unfold prepare_data. by rewrite Hm, Hd. }
  assert (prepare_headers (defaults w) s =
            Headers_set "Accept" (acceptType s) (defaults_headers (defaults w))) as Hh.
  { unfold prepare_headers. by rewrite Hbody. }
  split; [done|]. split; [done|]. split; [done|]. split.
  - rewrite Hh. unfold Headers_get, Headers_set. by rewrite lookup_insert_ne.
  - intros target init (k & _ & Hin)%request_event_origin.
    apply attempt_body_fetch in Hin as (_ & -> & _).
    cbn [init_body init_headers fetch_options]. by rewrite Hbody, Hh.
Qed.

(** ** Timeout *)

(** C8.  The effective timeout is [timeoutMs] when given and 60000
    otherwise.  Every timer the call sets has that delay and aborts the
    controller of its own iteration.  An iteration that gets past the
    signal check creates its controller, sets its timer and calls [fetch],
    after the timers of all earlier iterations were cleared. *)
Theorem request_timeout (w : World) (s : RequestSettings) (c : Z) :
  baseTimeout s = match timeoutMs s with Some ms => ms | None => 60000 end /\
  (forall k ms, EvSetTimeout k ms ∈ trace (request w s c) ->
     ms = baseTimeout s /\ EvNewAbortController k ∈ trace (request w s c)) /\
  (forall k, EvNewAbortController k ∈ trace (request w s c) ->
     abortSignal s = None \/ aborted_at_start (browser w k) = false ->
     exists rest,
       trace (request w s c) =
         flat_map (retried w s) (seq 0 k)
           ++ (EvNewAbortController k :: listener s EvAddEventListener k
                 ++ [EvSetTimeout k (baseTimeout s); EvFetch (url s) (fetch_options w s k)])
           ++ EvClearTimeout k :: rest).
Proof.
  split; [done|]. split.
  - intros k ms (j & Hj & Hin)%request_event_origin.
    by apply attempt_body_timer in Hin as (-> & ->).
  - intros k Hk Hpass.
    destruct (request_trace_through w s c k Hk) as (rest & ->).
    destruct (attempt_body_started w s k (c + 1) Hpass) as (tail & ->).
    unfold cleanup. cbn [app]. rewrite <- !app_assoc. cbn [app]. eauto.
Qed.

(** ** Classification of outcomes *)

(** C2.  Take an iteration whose [fetch] was issued and was rejected with
    [DOMException "AbortError"].  If the external signal reads aborted at
    that point, the call throws [AbortError] and the trace ends with this
    iteration's cleanup: no back-off, no further iteration, on any method
    and at any attempt index.  Otherwise, a GET with attempts left sleeps
    for the back-off delay and starts the next iteration, and any other
    call throws [TimeoutError] with the trace ending at this iteration's
    cleanup. *)
Theorem request_cancellation_cause (w : World) (s : RequestSettings) (c : Z) (k : nat) :
  EvFetch (url s) (fetch_options w s k) ∈ trace (request w s c) ->
  settled (browser w k) = Rejected (DOMException "AbortError") ->
  (forall sig, abortSignal s = Some sig -> aborted_at_settle (browser w k) = true ->
     completion (request w s c) = Throw AbortError /\
     trace (request w s c) =
       flat_map (retried w s) (seq 0 k) ++ started w s k ++ cleanup s k) /\
  (abortSignal s = None \/ aborted_at_settle (browser w k) = false ->
     (method s = GET -> (S k < maxAttempts s)%nat ->
        exists pre post,
          trace (request w s c) =
            pre ++ EvSleep (backoff k) :: EvNewAbortController (S k) :: post) /\
     (method s <> GET \/ ~ (S k < maxAttempts s)%nat ->
        completion (request w s c) = Throw TimeoutError /\
        trace (request w s c) =
          flat_map (retried w s) (seq 0 k) ++ started w s k ++ cleanup s k)).
Proof.
  intros (Hk & Hp)%request_fetch_issued Hs. split.
  - intros sig Hsig Hab.
    rewrite (request_throws_at w s c k AbortError (started w s k ++ cleanup s k)); [done..|].
    intros c'. by eapply attempt_body_aborted_by_user.
  - intros Hno. split.
    + intros Hget Hlt. apply request_continues; [done|].
      by apply attempt_body_timeout_retry.
    + intros Hfin.
      rewrite (request_throws_at w s c k TimeoutError (started w s k ++ cleanup s k)); [done..|].
      intros c'. by apply attempt_body_timeout_final.
Qed.

(** C3.  Take an iteration whose [fetch] was issued and resolved with a
    response.  A status of 500 or more makes the call throw
    [ResponseError] with the default message, status 429 makes it throw
    [ResponseError] with the rate-limit message, and any other status
    makes it return that response.  In all three cases the trace ends with
    this iteration's cleanup: there is no back-off and no further
    iteration, also for GET. *)
Theorem request_response_status (w : World) (s : RequestSettings) (c : Z) (k : nat)
    (r : Response) :
  EvFetch (url s) (fetch_options w s k) ∈ trace (request w s c) ->
  settled (browser w k) = Resolved r ->
  (500 <= status r ->
     completion (request w s c) = Throw (ResponseError "Something went wrong.")) /\
  (status r = 429 ->
     completion (request w s c) =
       Throw (ResponseError "Something went wrong, please try again after some time.")) /\
  (status r < 500 -> status r <> 429 -> completion (request w s c) = Normal r) /\
  exists tail,
    (tail = [] \/ tail = cleanup s k) /\
    trace (request w s c) =
      flat_map (retried w s) (seq 0 k) ++ started w s k ++ cleanup s k ++ tail.
Proof.
  intros (Hk & Hp)%request_fetch_issued Hs.
  pose proof (fun c' => attempt_body_resolved w s k c' r Hp Hs) as Hbody.
  rewrite (request_last w s c k Hk).
  2:{ intros a'. rewrite Hbody. cbn. by repeat case_match. }
  rewrite Hbody, completion_after, trace_after.
  destruct (Z.leb_spec 500 (status r)) as [Hge|Hlt];
    [|destruct (Z.eqb_spec (status r) 429) as [Heq|Hne]]; cbn [final completion trace orb].
  - repeat split; try (done || lia). eauto.
  - repeat split; try (done || lia). eauto.
  - repeat split; try (done || lia). eauto.
Qed.

(** ** A signal that is already aborted *)


(** ** Retry budget and back-off *)

Lemma maxAttempts_GET s : method s = GET -> maxAttempts s = 3%nat.
Proof. intros Hm. unfold maxAttempts. by rewrite Hm. Qed.

Lemma maxAttempts_other s : method s <> GET -> maxAttempts s = 1%nat.
Proof. intros Hm%Method_eqb_not_GET. unfold maxAttempts. by rewrite Hm. Qed.

(** A call on a method other than GET is its first iteration. *)
Lemma request_other_method w s c :
  method s <> GET -> request w s c = final (attempt_body w s 0 (c + 1)).
Proof.
  intros Hm. destruct (request_shape w s c) as (k & Hk & _ & _ & ->).
  rewrite (maxAttempts_other s Hm) in Hk.
  replace k with 0%nat by lia. apply after_nil.
Qed.

(** C4.  A GET is allotted 3 iterations of the attempt loop and every
    other method 1; no iteration beyond the allotment runs and [fetch] is
    called at most that many times.  On a method other than GET the call
    never sleeps; when the signal check lets the first iteration through,
    [fetch] is called exactly once, and if it is rejected the call throws
    at once, its trace being that single attempt and its cleanup: a
    network failure gives [ResponseError], a timeout [TimeoutError]. *)
Theorem request_attempt_budget (w : World) (s : RequestSettings) (c : Z) :
  (method s = GET -> maxAttempts s = 3%nat) /\
  (method s <> GET -> maxAttempts s = 1%nat) /\
  (forall k, EvNewAbortController k ∈ trace (request w s c) -> (k < maxAttempts s)%nat) /\
  (fetch_count (trace (request w s c)) <= maxAttempts s)%nat /\
  (method s <> GET ->
     sleeps (trace (request w s c)) = [] /\
     (abortSignal s = None \/ aborted_at_start (browser w 0) = false ->
        fetch_count (trace (request w s c)) = 1%nat /\
        (forall e, settled (browser w 0) = Rejected e ->
           (exists e', completion (request w s c) = Throw e') /\
           trace (request w s c) = started w s 0 ++ cleanup s 0) /\
        (forall message, settled (browser w 0) = Rejected (TypeError message) ->
           completion (request w s c) = Throw ResponseError_default) /\
        (settled (browser w 0) = Rejected (DOMException "AbortError") ->
         abortSignal s = None \/ aborted_at_settle (browser w 0) = false ->
           completion (request w s c) = Throw TimeoutError))).
Proof.
  split; [apply maxAttempts_GET|]. split; [apply maxAttempts_other|].
  split; [intros k Hk; by apply request_reaches in Hk as (? & _)|].
  split.
  { destruct (request_shape w s c) as (k & Hk & _ & _ & ->).
    rewrite trace_after, trace_final, fetch_count_app, fetch_count_retried_prefix.
    pose proof (attempt_body_fetch_count w s k (c + 1)) as [Hle _]. lia. }
  intros Hm. rewrite (request_other_method w s c Hm).
  assert (forall a', completion (attempt_body w s 0 (c + 1)) <> Normal (LContinue a')) as Hlast.
  { intros a' Hc. apply attempt_body_continue in Hc as (_ & Hlt & _).
    rewrite (maxAttempts_other s Hm) in Hlt. lia. }
  rewrite trace_final. split; [by apply attempt_body_no_sleep|].
  intros Hp. split; [by apply attempt_body_fetch_count|].
  assert (method s <> GET \/ ~ (1 < maxAttempts s)%nat) as Hfin by (by left).
  split; [|split].
  - intros e Hs.
    destruct (attempt_body_rejected_final w s 0 (c + 1) e Hp Hs Hfin) as (e' & ->).
    cbn. eauto.
  - intros message Hs.
    by rewrite (attempt_body_network_final w s 0 (c + 1) message Hp Hs Hfin).
  - intros Hs Hno.
    by rewrite (attempt_body_timeout_final w s 0 (c + 1) Hp Hs Hno Hfin).
Qed.

(** C5.  The back-off after iteration [i] is [500 * 2^i] milliseconds:
    500, then 1000.  Whenever iteration [i + 1] runs, the call slept for
    that delay right before it.  Every call is a number of retried
    iterations, each ending with its back-off, followed by a last
    iteration that does not sleep; so no back-off follows an attempt that
    fails for good.  A GET whose [fetch] is rejected with a [TypeError]
    twice and then resolves with a status below 500 other than 429
    returns that response after 3 [fetch] calls and sleeps of 500 and
    1000. *)
Theorem request_backoff (w : World) (s : RequestSettings) (c : Z) :
  (forall i, backoff i = 500 * 2 ^ Z.of_nat i) /\
  List.map backoff [0; 1]%nat = [500; 1000] /\
  (forall i, EvNewAbortController (S i) ∈ trace (request w s c) ->
     exists pre post,
       trace (request w s c) =
         pre ++ EvSleep (backoff i) :: EvNewAbortController (S i) :: post) /\
  (exists k last,
     (k < maxAttempts s)%nat /\
     trace (request w s c) = flat_map (retried w s) (seq 0 k) ++ last /\
     sleeps last = [] /\
     sleeps (trace (request w s c)) = List.map backoff (seq 0 k)) /\
  (forall m0 m1 r,
     method s = GET ->
     (forall k, (k < 3)%nat ->
        abortSignal s = None \/ aborted_at_start (browser w k) = false) ->
     settled (browser w 0) = Rejected (TypeError m0) ->
     settled (browser w 1) = Rejected (TypeError m1) ->
     settled (browser w 2) = Resolved r ->
     status r < 500 -> status r <> 429 ->
     completion (request w s c) = Normal r /\
     fetch_count (trace (request w s c)) = 3%nat /\
     sleeps (trace (request w s c)) = [500; 1000]).
Proof.
  split; [done|]. split; [done|]. split; [|split].
  - intros i Hi. destruct (request_reaches w s c (S i) Hi) as (Hlt & Hret & Heq).
    assert (EvNewAbortController i ∈ trace (request w s c)) as Hprev.
    { rewrite Heq, trace_after, seq_S, flat_map_app. cbn [flat_map].
      unfold retried at 2, started. rewrite !elem_of_app, elem_of_cons. naive_solver. }
    apply request_continues; [done|]. apply Hret. lia.
  - destruct (request_shape w s c) as (k & Hk & _ & Hlast & Heq).
    exists k, (trace (attempt_body w s k (c + 1))).
    rewrite Heq, trace_after, trace_final, sleeps_app, sleeps_retried_prefix.
    rewrite (attempt_body_no_sleep w s k (c + 1) Hlast), app_nil_r. done.
  - intros m0 m1 r Hget Hp Hs0 Hs1 Hs2 Hlt Hne.
    pose proof (maxAttempts_GET s Hget) as Hmax.
    assert (retries w s 0) as Hr0.
    { apply (attempt_body_network_retry w s 0 m0); [apply Hp; lia|done|done|lia]. }
    assert (retries w s 1) as Hr1.
    { apply (attempt_body_network_retry w s 1 m1); [apply Hp; lia|done|done|lia]. }
    rewrite request_eq, Hmax, !attempts_retry, attempts_unfold by (done || lia).
    rewrite (attempt_body_resolved w s 2 _ r (Hp 2%nat ltac:(lia)) Hs2).
    apply Z.leb_gt in Hlt as ->. apply Z.eqb_neq in Hne as ->. cbn [orb loop_step after finish].
    cbn [completion trace].
    unfold retried, started, cleanup, listener. by destruct (abortSignal s).
Qed.

(** ** The in-flight counter *)

(** The counter after a call: back at its value at entry when the last
    iteration stopped at the signal check, one above it otherwise. *)
Lemma request_counter (w : World) (s : RequestSettings) (c : Z) :
  exists k,
    EvNewAbortController k ∈ trace (request w s c) /\
    (forall j, (k < j)%nat -> EvNewAbortController j ∉ trace (request w s c)) /\
    activeRequests (request w s c) =
      match abortSignal s with
      | Some _ => if aborted_at_start (browser w k) then c else c + 1
      | None => c + 1
      end.
Proof.
  destruct (request_shape w s c) as (k & Hk & _ & Hlast & Heq).
  assert (EvNewAbortController k ∈ trace (request w s c)) as Hin.
  { rewrite Heq, trace_after, trace_final.
    destruct (attempt_body_head w s k (c + 1)) as [t ->].
    apply elem_of_app. right. apply elem_of_cons. by left. }
  exists k. split; [done|]. split.
  { intros j Hj. by apply (request_no_later w s c k j). }
  rewrite Heq, activeRequests_after.
  pose proof (attempt_body_counter w s k (c + 1)) as Hc.
  destruct (attempt_body w s k (c + 1)) as [[[r|a']| |] c' t]; cbn in *; subst c'.
  all: destruct (abortSignal s); [destruct (aborted_at_start _)|]; lia.
Qed.

(** A call that returns a response leaves the counter incremented. *)
Lemma request_returns_counter (w : World) (s : RequestSettings) (c : Z) (r : Response) :
  completion (request w s c) = Normal r ->
  activeRequests (request w s c) = c + 1.
Proof.
  destruct (request_shape w s c) as (k & Hk & _ & Hlast & ->).
  rewrite completion_after, activeRequests_after.
  pose proof (attempt_body_counter w s k (c + 1)) as Hc.
  destruct (abortSignal s) as [sig|] eqn:Hsig;
    [destruct (aborted_at_start (browser w k)) eqn:Hab|].
  - by rewrite (attempt_body_pre_aborted w s k (c + 1) sig Hsig Hab).
  - destruct (attempt_body w s k (c + 1)) as [[[?|?]| |] ? ?]; by cbn in *.
  - destruct (attempt_body w s k (c + 1)) as [[[?|?]| |] ? ?]; by cbn in *.
Qed.

(** ** assertResponseError *)

(** C9.  [assertResponseError e] returns normally exactly when [e] is a
    [ResponseError]; on any other value it throws that same value. *)
Theorem assertResponseError_spec (e : JsError) :
  (assertResponseError e = Normal tt <-> instanceof_ResponseError e = true) /\
  (instanceof_ResponseError e = true <-> exists message, e = ResponseError message) /\
  (instanceof_ResponseError e = false -> assertResponseError e = Throw e).
Proof.
  unfold assertResponseError. destruct e; cbn; repeat split; try done; eauto.
  all: by intros [m [=]].
Qed.

(** ** The counter *)

(** C1.  The counter is not restored: a GET that resolves with status
    200 returns the response and leaves the counter at 1 when it was 0 at
    entry.  The same happens when the call throws [ResponseError],
    [TimeoutError], or [AbortError] for a signal aborted in flight. *)
Theorem request_counter_leak :
  let ok := request (world_of [resolves 200]) get_products 0 in
  let unavailable := request (world_of [resolves 503]) get_products 0 in
  let timed_out := request (world_of [rejects (DOMException "AbortError")]) delete_nothing 0 in
  let cancelled := request (world_of [user_aborts]) get_cancellable 0 in
  (completion ok = Normal (response_with 200) /\ activeRequests ok = 1) /\
  (completion unavailable = Throw (ResponseError "Something went wrong.") /\
   activeRequests unavailable = 1) /\
  (completion timed_out = Throw TimeoutError /\ activeRequests timed_out = 1) /\
  (completion cancelled = Throw AbortError /\ activeRequests cancelled = 1).
Proof. vm_compute. repeat split. Qed.

Ltac in_trace :=
  vm_compute; repeat first [apply list_elem_of_here | apply list_elem_of_further].

(** A user abort in flight, a timeout that is retried, and a timeout on
    DELETE. *)
Lemma request_cancellation_cause_witness :
  completion (request (world_of [user_aborts]) get_cancellable 0) = Throw AbortError /\
  (exists pre post,
     trace (request world_timeout_then_ok get_cancellable 0) =
       pre ++ EvSleep 500 :: EvNewAbortController 1 :: post) /\
  completion (request (world_of [rejects (DOMException "AbortError")]) delete_nothing 0)
    = Throw TimeoutError.
Proof.
  split; [|split].
  - assert (EvFetch (url get_cancellable) (fetch_options (world_of [user_aborts]) get_cancellable 0)
              ∈ trace (request (world_of [user_aborts]) get_cancellable 0)) as Hin by in_trace.
    destruct (request_cancellation_cause _ _ 0 0%nat Hin eq_refl) as [Huser _].
    exact (proj1 (Huser UserSignal eq_refl eq_refl)).
  - assert (EvFetch (url get_cancellable) (fetch_options world_timeout_then_ok get_cancellable 0)
              ∈ trace (request world_timeout_then_ok get_cancellable 0)) as Hin by in_trace.
    destruct (request_cancellation_cause _ _ 0 0%nat Hin eq_refl) as [_ Htimeout].
    destruct (Htimeout (or_intror eq_refl)) as [Hretry _].
    apply Hretry; [reflexivity|vm_compute; lia].
  - assert (EvFetch (url delete_nothing)
                    (fetch_options (world_of [rejects (DOMException "AbortError")])
                                   delete_nothing 0)
              ∈ trace (request (world_of [rejects (DOMException "AbortError")])
                               delete_nothing 0))
      as Hin by in_trace.
    destruct (request_cancellation_cause _ _ 0 0%nat Hin eq_refl) as [_ Htimeout].
    destruct (Htimeout (or_introl eq_refl)) as [_ Hfinal].
    apply Hfinal. left. discriminate.
Defined.

(** Status 503, 429 and 200 on a GET. *)
Lemma request_response_status_witness :
  completion (request (world_of [resolves 503]) get_products 0)
    = Throw (ResponseError "Something went wrong.") /\
  completion (request (world_of [resolves 429]) get_products 0)
    = Throw (ResponseError "Something went wrong, please try again after some time.") /\
  completion (request (world_of [resolves 200]) get_products 0) = Normal (response_with 200) /\
  fetch_count (trace (request (world_of [resolves 503]) get_products 0)) = 1%nat.
Proof.
  assert (EvFetch (url get_products) (fetch_options (world_of [resolves 503]) get_products 0)
            ∈ trace (request (world_of [resolves 503]) get_products 0)) as Hin503 by in_trace.
  assert (EvFetch (url get_products) (fetch_options (world_of [resolves 429]) get_products 0)
            ∈ trace (request (world_of [resolves 429]) get_products 0)) as Hin429 by in_trace.
  assert (EvFetch (url get_products) (fetch_options (world_of [resolves 200]) get_products 0)
            ∈ trace (request (world_of [resolves 200]) get_products 0)) as Hin200 by in_trace.
  split; [|split; [|split]].
  - destruct (request_response_status _ _ 0 0%nat (response_with 503) Hin503 eq_refl)
      as (H500 & _). apply H500. vm_compute. discriminate.
  - destruct (request_response_status _ _ 0 0%nat (response_with 429) Hin429 eq_refl)
      as (_ & H429 & _). by apply H429.
  - destruct (request_response_status _ _ 0 0%nat (response_with 200) Hin200 eq_refl)
      as (_ & _ & Hok & _). apply Hok; [reflexivity|discriminate].
  - reflexivity.
Defined.

(** A POST whose [fetch] fails at the network level: one attempt, no
    sleep, [ResponseError].  A GET that keeps failing stops at 3. *)
Lemma request_attempt_budget_witness :
  maxAttempts post_record = 1%nat /\
  fetch_count (trace (request (world_of [rejects (TypeError "Failed to fetch")]) post_record 0))
    = 1%nat /\
  sleeps (trace (request (world_of [rejects (TypeError "Failed to fetch")]) post_record 0)) = [] /\
  completion (request (world_of [rejects (TypeError "Failed to fetch")]) post_record 0)
    = Throw ResponseError_default /\
  (fetch_count (trace (request world_network_twice get_products 0%Z)) <= 3)%nat.
Proof.
  destruct (request_attempt_budget (world_of [rejects (TypeError "Failed to fetch")]) post_record 0)
    as (_ & Hother & _ & _ & Hpost).
  assert (method post_record <> GET) as Hm by discriminate.
  destruct (Hpost Hm) as (Hsleeps & Hfirst).
  destruct (Hfirst (or_introl eq_refl)) as (Hcount & _ & Hnet & _).
  split; [exact (Hother Hm)|]. split; [exact Hcount|]. split; [exact Hsleeps|].
  split; [exact (Hnet "Failed to fetch" eq_refl)|].
  destruct (request_attempt_budget world_network_twice get_products 0) as (Hget & _ & _ & Hle & _).
  by rewrite (Hget eq_refl) in Hle.
Defined.

(** Two network failures, then status 200, on a GET. *)
Lemma request_backoff_witness :
  completion (request world_network_twice get_products 0) = Normal (response_with 200) /\
  fetch_count (trace (request world_network_twice get_products 0)) = 3%nat /\
  sleeps (trace (request world_network_twice get_products 0)) = [500; 1000].
Proof.
  destruct (request_backoff world_network_twice get_products 0) as (_ & _ & _ & _ & Hrun).
  apply (Hrun "Failed to fetch" "Failed to fetch" (response_with 200)).
  - reflexivity.
  - intros k _. by left.
  - reflexivity.
  - reflexivity.
  - reflexivity.
  - reflexivity.
  - discriminate.
Defined.


(** A DELETE without payload. *)
Lemma request_absent_payload_witness :
  prepare_data delete_nothing = BodyUndefined /\
  Headers_get "Content-Type" (prepare_headers defaults_initial delete_nothing) = None /\
  Headers_get "Accept" (prepare_headers defaults_initial delete_nothing) = Some "text/csv".
Proof.
  destruct (request_absent_payload (world_of []) delete_nothing 0) as (_ & Habsent).
  assert (method delete_nothing <> GET) as Hm by discriminate.
  destruct (Habsent Hm eq_refl) as (_ & Hbody & Hheaders & Hct & _).
  split; [exact Hbody|]. split.
  - change defaults_initial with (defaults (world_of [])). rewrite Hct. reflexivity.
  - change defaults_initial with (defaults (world_of [])). rewrite Hheaders. reflexivity.
Defined.

(** The caller's 5000 ms on both iterations of a retried GET, and the
    default on a call that gives none. *)
Lemma request_timeout_witness :
  baseTimeout get_products = 60000 /\
  baseTimeout get_cancellable = 5000 /\
  exists rest,
    trace (request world_timeout_then_ok get_cancellable 0) =
      retried world_timeout_then_ok get_cancellable 0
        ++ [EvNewAbortController 1; EvAddEventListener 1; EvSetTimeout 1 5000;
            EvFetch "/products" (fetch_options world_timeout_then_ok get_cancellable 1)]
        ++ EvClearTimeout 1 :: rest.
Proof.
  destruct (request_timeout world_timeout_then_ok get_cancellable 0) as (Hbase & Htimers & Hfresh).
  split; [reflexivity|]. split; [exact Hbase|].
  assert (EvNewAbortController 1 ∈ trace (request world_timeout_then_ok get_cancellable 0))
    as Hin by in_trace.
  destruct (Hfresh 1%nat Hin (or_intror eq_refl)) as (rest & Heq).
  exists rest. rewrite Heq. cbn [seq flat_map]. by rewrite app_nil_r.
Defined.

(** A [TypeError] is thrown again, a [ResponseError] passes. *)
Lemma assertResponseError_spec_witness :
  assertResponseError (TypeError "Failed to fetch") = Throw (TypeError "Failed to fetch") /\
  assertResponseError (ResponseError "Something went wrong.") = Normal tt.
Proof.
  split.
  - destruct (assertResponseError_spec (TypeError "Failed to fetch")) as (_ & _ & Hthrow).
    exact (Hthrow eq_refl).
  - destruct (assertResponseError_spec (ResponseError "Something went wrong.")) as (Hok & _).
    exact (proj2 Hok eq_refl).
Defined.

(** * Further properties of [request] *)

(** ** What a call can produce *)


(** An iteration returns only what [fetch] resolved with, and only when
    the status is below 500 and not 429. *)
Lemma attempt_body_return w s k c r :
  completion (attempt_body w s k c) = Normal (LReturn r) ->
  passes_precheck w s k /\ settled (browser w k) = Resolved r /\
  status r < 500 /\ status r <> 429 /\
  trace (attempt_body w s k c) = started w s k ++ cleanup s k.
Proof.
  unfold passes_precheck, started, cleanup, listener. intros H.
  body_cases;
    repeat match goal with
           | H : (_ <=? _) = false |- _ => apply Z.leb_gt in H
           | H : (_ =? _) = false |- _ => apply Z.eqb_neq in H
           end; auto 7.
Qed.


(** X2.  When a call returns, the response is the one [fetch] resolved
    with in the last iteration, its status is below 500 and is not 429,
    and the trace ends with that iteration's cleanup. *)
Theorem request_returns_resolved (w : World) (s : RequestSettings) (c : Z) (r : Response) :
  completion (request w s c) = Normal r ->
  status r < 500 /\ status r <> 429 /\
  exists k,
    (k < maxAttempts s)%nat /\
    settled (browser w k) = Resolved r /\
    trace (request w s c) =
      flat_map (retried w s) (seq 0 k) ++ started w s k ++ cleanup s k.
Proof.
  destruct (request_shape w s c) as (k & Hk & _ & Hlast & Heq).
  rewrite Heq, completion_after, trace_after, trace_final. intros Hc.
  assert (completion (attempt_body w s k (c + 1)) = Normal (LReturn r)) as Hbody.
  { revert Hc. destruct (attempt_body w s k (c + 1)) as [[[?|?]| |] ? ?]; cbn; congruence. }
  destruct (attempt_body_return w s k (c + 1) r Hbody) as (_ & Hs & Hlt & Hne & ->).
  split; [done|]. split; [done|]. exists k. done.
Qed.

(** ** Failures other than a cancellation *)

(** A rejection that is neither a [TypeError] nor a [DOMException] named
    "AbortError" ends the call in this iteration (lines 119 and 129). *)
Lemma attempt_body_other_rejection w s k c e :
  passes_precheck w s k ->
  settled (browser w k) = Rejected e ->
  (forall m, e <> TypeError m) ->
  e <> DOMException "AbortError" ->
  attempt_body w s k c =
    MkRun (Throw (if instanceof_ResponseError e then e else ResponseError_default)) c
          (started w s k ++ cleanup s k).
Proof.
  unfold passes_precheck, started, cleanup, listener. intros Hp Hs Hty Hab.
  assert (instanceof_DOMException e && bool_decide (error_name e = "AbortError") = false)
    as Hdom.
  { destruct e; try done. cbn. apply bool_decide_eq_false. congruence. }
  assert (instanceof_TypeError e = false) as Hnet.
  { destruct e; try done. by destruct (Hty message). }
  unfold_prog.
  destruct (abortSignal s) as [sig|]; [destruct Hp as [?|Hp]; [done|]; rewrite Hp|];
    rewrite Hs; simpl_run; rewrite Hdom, Hnet; simpl_run;
    by destruct (instanceof_ResponseError e).
Qed.

(** X3.  Take an iteration whose [fetch] was issued and was rejected with
    a [TypeError].  The external signal is not consulted: a GET with
    attempts left sleeps for the back-off delay and starts the next
    iteration, and any other call throws [ResponseError] with the default
    message, the trace ending at this iteration's cleanup. *)
Theorem request_network_failure (w : World) (s : RequestSettings) (c : Z) (k : nat)
    (message : string) :
  EvFetch (url s) (fetch_options w s k) ∈ trace (request w s c) ->
  settled (browser w k) = Rejected (TypeError message) ->
  (method s = GET -> (S k < maxAttempts s)%nat ->
     exists pre post,
       trace (request w s c) =
         pre ++ EvSleep (backoff k) :: EvNewAbortController (S k) :: post) /\
  (method s <> GET \/ ~ (S k < maxAttempts s)%nat ->
     completion (request w s c) = Throw (ResponseError "Something went wrong.") /\
     trace (request w s c) =
       flat_map (retried w s) (seq 0 k) ++ started w s k ++ cleanup s k).
Proof.
  intros (Hk & Hp)%request_fetch_issued Hs. split.
  - intros Hget Hlt. apply request_continues; [done|].
    by apply (attempt_body_network_retry w s k message).
  - intros Hfin.
    rewrite (request_throws_at w s c k ResponseError_default (started w s k ++ cleanup s k));
      [done..|].
    intros c'. by apply (attempt_body_network_final w s k c' message).
Qed.

(** X4.  Take an iteration whose [fetch] was issued and was rejected with
    a value that is neither a [TypeError] nor a [DOMException] named
    "AbortError".  The call ends there, also for a GET with attempts left:
    a [ResponseError] is thrown again unchanged, anything else becomes a
    [ResponseError] with the default message. *)
Theorem request_unclassified_failure (w : World) (s : RequestSettings) (c : Z) (k : nat)
    (e : JsError) :
  EvFetch (url s) (fetch_options w s k) ∈ trace (request w s c) ->
  settled (browser w k) = Rejected e ->
  (forall m, e <> TypeError m) ->
  e <> DOMException "AbortError" ->
  ((forall m, e = ResponseError m -> completion (request w s c) = Throw (ResponseError m)) /\
   ((forall m, e <> ResponseError m) ->
      completion (request w s c) = Throw (ResponseError "Something went wrong."))) /\
  trace (request w s c) =
    flat_map (retried w s) (seq 0 k) ++ started w s k ++ cleanup s k.
Proof.
  intros (Hk & Hp)%request_fetch_issued Hs Hty Hab.
  rewrite (request_throws_at w s c k
             (if instanceof_ResponseError e then e else ResponseError_default)
             (started w s k ++ cleanup s k)); [|done|].
  2:{ intros c'. by apply attempt_body_other_rejection. }
  cbn [completion trace]. split; [split|done].
  - by intros m ->.
  - intros Hno. destruct e; try done. by destruct (Hno message).
Qed.

(** X5.  A GET whose three attempts all fail in a way that is retried (a
    [TypeError], or an abort that is not the external signal's) calls
    [fetch] three times, sleeps 500 and then 1000 ms, and throws for the
    third failure: [ResponseError] after a [TypeError], [TimeoutError]
    after an abort. *)
Theorem request_retries_exhausted (w : World) (s : RequestSettings) (c : Z) :
  method s = GET ->
  (forall k, (k < 3)%nat ->
     abortSignal s = None \/
     (aborted_at_start (browser w k) = false /\ aborted_at_settle (browser w k) = false)) ->
  (forall k, (k < 3)%nat ->
     settled (browser w k) = Rejected (DOMException "AbortError") \/
     exists m, settled (browser w k) = Rejected (TypeError m)) ->
  fetch_count (trace (request w s c)) = 3%nat /\
  sleeps (trace (request w s c)) = [500; 1000] /\
  (settled (browser w 2) = Rejected (DOMException "AbortError") ->
     completion (request w s c) = Throw TimeoutError) /\
  (forall m, settled (browser w 2) = Rejected (TypeError m) ->
     completion (request w s c) = Throw (ResponseError "Something went wrong.")).
Proof.
  intros Hget Hsig Hfail.
  pose proof (maxAttempts_GET s Hget) as Hmax.
  assert (forall k, (k < 3)%nat -> passes_precheck w s k) as Hp.
  { intros k Hk. destruct (Hsig k Hk) as [?|[? _]]; [by left|by right]. }
  assert (forall k, (k < 3)%nat ->
            abortSignal s = None \/ aborted_at_settle (browser w k) = false) as Hno.
  { intros k Hk. destruct (Hsig k Hk) as [?|[_ ?]]; [by left|by right]. }
  assert (forall k, (S k < 3)%nat -> retries w s k) as Hr.
  { intros k Hk. destruct (Hfail k) as [Hs|[m Hs]]; [lia| |].
    - apply attempt_body_timeout_retry; try done; [apply Hp|apply Hno|]; lia.
    - apply (attempt_body_network_retry w s k m); try done; [apply Hp|]; lia. }
  assert (exists e, (forall c', attempt_body w s 2 c' =
                       MkRun (Throw e) c' (started w s 2 ++ cleanup s 2)) /\
                    (settled (browser w 2) = Rejected (DOMException "AbortError") ->
                       e = TimeoutError) /\
                    (forall m, settled (browser w 2) = Rejected (TypeError m) ->
                       e = ResponseError_default)) as (e & Hlast & Hto & Hnet).
  { assert (method s <> GET \/ ~ (3 < maxAttempts s)%nat) as Hfin by (right; lia).
    destruct (Hfail 2%nat) as [Hs|[m Hs]]; [lia| |].
    - exists TimeoutError. split; [|split; [done|]].
      + intros c'. apply attempt_body_timeout_final; try done; [apply Hp|apply Hno]; lia.
      + intros m Hs'. congruence.
    - exists ResponseError_default. split; [|split; [congruence|done]].
      intros c'. apply (attempt_body_network_final w s 2 c' m); try done. apply Hp; lia. }
  rewrite request_eq, Hmax, !attempts_retry, attempts_unfold by (apply Hr; lia) || lia.
  rewrite Hlast. cbn [loop_step after finish completion trace].
  split; [|split; [|split]].
  - unfold retried, started, cleanup, listener. by destruct (abortSignal s).
  - unfold retried, started, cleanup, listener. by destruct (abortSignal s).
  - intros Hs. by rewrite (Hto Hs).
  - intros m Hs. by rewrite (Hnet m Hs).
Qed.

(** ** The loop *)

(** Unrolling the loop further than needed changes nothing. *)
Lemma attempts_fuel_irrelevant w s fuel1 : forall fuel2 a c,
  (a < maxAttempts s)%nat ->
  (maxAttempts s - a <= fuel1)%nat -> (maxAttempts s - a <= fuel2)%nat ->
  attempts w s fuel1 a c = attempts w s fuel2 a c.
Proof.
  induction fuel1 as [|fuel1 IH]; intros fuel2 a c Ha H1 H2; [lia|].
  destruct fuel2 as [|fuel2]; [lia|].
  rewrite !attempts_unfold by done.
  destruct (attempt_body w s a c) as [[[r|a']| |] c' t] eqn:Hbody; cbn; try done.
  destruct (attempt_body_continue w s a c a') as (-> & Hlt & _).
  { by rewrite Hbody. }
  f_equal. apply IH; lia.
Qed.

(** X6.  The [while] loop always ends inside its body, with a [return] or
    a [throw]: the fall-through of lines 133-134 is never reached.
    Unrolling the loop [maxAttempts] times is enough, and unrolling it
    further gives the same run. *)
Theorem request_loop_ends_in_body (w : World) (s : RequestSettings) (c : Z) (fuel : nat) :
  (maxAttempts s <= fuel)%nat ->
  attempts w s fuel 0 c = attempts w s (maxAttempts s) 0 c /\
  ((exists r, completion (attempts w s fuel 0 c) = Normal (Some r)) \/
   (exists e, completion (attempts w s fuel 0 c) = Throw e)).
Proof.
  intros Hfuel. pose proof (maxAttempts_pos s) as Hpos.
  split; [apply attempts_fuel_irrelevant; lia|].
  rewrite (attempts_fuel_irrelevant w s fuel (S (maxAttempts s)) 0 c) by lia.
  apply attempts_settles; lia.
Qed.

(** ** Calls without an external signal *)

Lemma attempt_body_no_signal w s k c :
  abortSignal s = None ->
  completion (attempt_body w s k c) <> Throw AbortError /\
  forall e, e ∈ trace (attempt_body w s k c) ->
            forall j, e <> EvAddEventListener j /\ e <> EvRemoveEventListener j.
Proof.
  intros Hsig. unfold_prog. rewrite Hsig.
  repeat (simpl_run; case_match; simplify_eq; try done); simpl_run.
  all: split; [intros [= ?]; by subst|]; intros ev Hev j; in_cases Hev; done.
Qed.

(** X7.  A call made without an [abortSignal] never throws [AbortError],
    never adds or removes an event listener, and calls [fetch] in every
    iteration it starts. *)
Theorem request_without_signal (w : World) (s : RequestSettings) (c : Z) :
  abortSignal s = None ->
  completion (request w s c) <> Throw AbortError /\
  (forall k, (EvAddEventListener k ∉ trace (request w s c)) /\
             (EvRemoveEventListener k ∉ trace (request w s c))) /\
  (forall k, EvNewAbortController k ∈ trace (request w s c) ->
             EvFetch (url s) (fetch_options w s k) ∈ trace (request w s c)).
Proof.
  intros Hsig. split; [|split].
  - destruct (request_shape w s c) as (k & _ & _ & _ & ->).
    rewrite completion_after.
    destruct (attempt_body_no_signal w s k (c + 1) Hsig) as [Hno _].
    destruct (attempt_body w s k (c + 1)) as [[[?|?]| |] ? ?]; cbn in *; congruence.
  - intros k. split; intros (j & _ & Hin)%request_event_origin;
      destruct (attempt_body_no_signal w s j (c + 1) Hsig) as [_ Hev];
      by destruct (Hev _ Hin k).
  - intros k Hk. destruct (request_trace_through w s c k Hk) as (rest & ->).
    destruct (attempt_body_started w s k (c + 1)) as (tail & ->); [by left|].
    unfold started.
    rewrite !elem_of_app, !elem_of_cons, !elem_of_app, !elem_of_cons. auto 8.
Qed.

(** ** Timers and listeners *)

(** A timer or a listener is only installed by an iteration that gets
    past the signal check. *)
Lemma attempt_body_installs w s k c e :
  e ∈ trace (attempt_body w s k c) ->
  (forall ms, e = EvSetTimeout k ms -> passes_precheck w s k) /\
  (e = EvAddEventListener k ->
     passes_precheck w s k /\ exists sig, abortSignal s = Some sig).
Proof.
  unfold passes_precheck. intros Hin.
  body_cases; in_cases Hin; split; try done; eauto.
Qed.

(** X8.  No timer and no listener outlives its iteration.  Every
    [setTimeout] of a call is followed by the [fetch] of the same
    iteration and then by [clearTimeout] for that timer; every listener
    added to the external signal is removed right after that. *)
Theorem request_cleanup (w : World) (s : RequestSettings) (c : Z) (k : nat) :
  (forall ms, EvSetTimeout k ms ∈ trace (request w s c) ->
     exists pre post,
       trace (request w s c) =
         pre ++ [EvSetTimeout k ms; EvFetch (url s) (fetch_options w s k); EvClearTimeout k]
             ++ post) /\
  (EvAddEventListener k ∈ trace (request w s c) ->
     exists pre post,
       trace (request w s c) =
         pre ++ [EvAddEventListener k; EvSetTimeout k (baseTimeout s);
                 EvFetch (url s) (fetch_options w s k);
                 EvClearTimeout k; EvRemoveEventListener k]
             ++ post).
Proof.
  split.
  - intros ms Hin.
    destruct (request_event_origin w s c _ Hin) as (j & Hj & Hbody).
    destruct (attempt_body_timer w s j (c + 1) k ms Hbody) as (-> & ->).
    destruct (attempt_body_installs w s j (c + 1) _ Hbody) as [Hp _].
    destruct (request_trace_through w s c j Hj) as (rest & ->).
    destruct (attempt_body_started w s j (c + 1) (Hp _ eq_refl)) as (tail & ->).
    exists (flat_map (retried w s) (seq 0 j)
              ++ EvNewAbortController j :: listener s EvAddEventListener j),
           (listener s EvRemoveEventListener j ++ tail ++ rest).
    unfold started, cleanup. cbn [app]. rewrite <- !app_assoc. cbn [app].
    by rewrite <- !app_assoc.
  - intros Hin.
    destruct (request_event_origin w s c _ Hin) as (j & Hj & Hbody).
    assert (j = k) as ->.
    { pose proof (attempt_body_events w s j (c + 1)) as Hall.
      rewrite Forall_forall in Hall. destruct (Hall _ Hbody) as [[=]|[=]]. done. }
    destruct (attempt_body_installs w s k (c + 1) _ Hbody) as [_ Hl].
    destruct (Hl eq_refl) as (Hp & sig & Hsig).
    destruct (request_trace_through w s c k Hj) as (rest & ->).
    destruct (attempt_body_started w s k (c + 1) Hp) as (tail & ->).
    exists (flat_map (retried w s) (seq 0 k) ++ [EvNewAbortController k]), (tail ++ rest).
    unfold started, cleanup, listener. rewrite Hsig. cbn [app].
    rewrite <- !app_assoc. by cbn [app].
Qed.

(** ** Iterations, attempts and back-off *)

Lemma controllers_app t1 t2 : controllers (t1 ++ t2) = controllers t1 ++ controllers t2.
Proof. induction t1 as [|e t1 IH]; [done|]. destruct e; cbn; by rewrite ?IH. Qed.

Lemma controllers_retried w s k : controllers (retried w s k) = [k].
Proof. unfold retried, started, cleanup, listener. by destruct (abortSignal s). Qed.

Lemma controllers_retried_prefix w s a n :
  controllers (flat_map (retried w s) (seq a n)) = seq a n.
Proof.
  revert a. induction n as [|n IH]; intros a; [done|].
  cbn [seq flat_map]. by rewrite controllers_app, controllers_retried, IH.
Qed.

Lemma attempt_body_controllers w s k c : controllers (trace (attempt_body w s k c)) = [k].
Proof. body_cases. Qed.

(** ** Headers *)

(** X10.  [request] touches only the [Accept] and [Content-Type] headers:
    every other header of [defaults] is passed on with its value, under
    any spelling of its name.  The other members of [defaults] are passed
    to every [fetch] as they are. *)
Theorem request_keeps_default_headers (w : World) (s : RequestSettings) (c : Z)
    (name : string) :
  lowercase name <> "accept" ->
  lowercase name <> "content-type" ->
  Headers_get name (prepare_headers (defaults w) s) =
    Headers_get name (defaults_headers (defaults w)) /\
  forall target init, EvFetch target init ∈ trace (request w s c) ->
    Headers_get name (init_headers init) = Headers_get name (defaults_headers (defaults w)) /\
    init_defaults init = defaults_rest (defaults w).
Proof.
  intros Ha Hc.
  assert (Headers_get name (prepare_headers (defaults w) s) =
            Headers_get name (defaults_headers (defaults w))) as Hkeep.
  { unfold prepare_headers, Headers_get, Headers_set.
    destruct (_ && _); cbn [lowercase ascii_lower];
      rewrite ?lookup_insert_ne; try done; by vm_compute. }
  split; [done|].
  intros target init (k & _ & Hin)%request_event_origin.
  by apply attempt_body_fetch in Hin as (_ & -> & _).
Qed.

(** ** Together with [assertResponseError] *)

(** ** The counter *)

(** X12.  A call never decrements the counter more often than it
    incremented it, and changes it by at most one: afterwards the counter
    is at its value at entry when the last iteration stopped at the signal
    check, and one above it in every other case. *)
Theorem request_counter_net_change (w : World) (s : RequestSettings) (c : Z) :
  c <= activeRequests (request w s c) <= c + 1 /\
  exists k,
    EvNewAbortController k ∈ trace (request w s c) /\
    (forall j, (k < j)%nat -> EvNewAbortController j ∉ trace (request w s c)) /\
    (activeRequests (request w s c) = c <->
       is_Some (abortSignal s) /\ aborted_at_start (browser w k) = true).
Proof.
  destruct (request_counter w s c) as (k & Hk & Hlast & Hc).
  split.
  { rewrite Hc. destruct (abortSignal s); [destruct (aborted_at_start _)|]; lia. }
  exists k. split; [done|]. split; [done|]. rewrite Hc.
  destruct (abortSignal s) as [sig|]; [destruct (aborted_at_start _)|].
  - split; [eauto|done].
  - split; [lia|]. by intros [_ ?].
  - split; [lia|]. by intros [[? [=]] _].
Qed.

(** ** Concrete runs of the further properties *)

(** A GET that succeeds on the third attempt returns that response. *)
Lemma request_returns_resolved_witness :
  completion (request world_network_twice get_products 0) = Normal (response_with 200) /\
  status (response_with 200) < 500 /\ status (response_with 200) <> 429 /\
  exists k, (k < maxAttempts get_products)%nat /\
            settled (browser world_network_twice k) = Resolved (response_with 200).
Proof.
  assert (completion (request world_network_twice get_products 0)
            = Normal (response_with 200)) as Hrun by reflexivity.
  split; [exact Hrun|].
  destruct (request_returns_resolved _ _ _ _ Hrun) as (Hlt & Hne & k & Hk & Hs & _).
  split; [exact Hlt|]. split; [exact Hne|]. by exists k.
Defined.

(** A network failure on the first attempt of a GET is retried; on a POST
    it is final. *)
Lemma request_network_failure_witness :
  (exists pre post,
     trace (request world_network_twice get_products 0) =
       pre ++ EvSleep 500 :: EvNewAbortController 1 :: post) /\
  completion (request (world_of [rejects (TypeError "Failed to fetch")]) post_record 0)
    = Throw (ResponseError "Something went wrong.").
Proof.
  split.
  - assert (EvFetch (url get_products) (fetch_options world_network_twice get_products 0)
              ∈ trace (request world_network_twice get_products 0)) as Hin by in_trace.
    destruct (request_network_failure _ _ 0 0%nat "Failed to fetch" Hin eq_refl) as [Hretry _].
    apply Hretry; [reflexivity|vm_compute; lia].
  - assert (EvFetch (url post_record)
                    (fetch_options (world_of [rejects (TypeError "Failed to fetch")]) post_record 0)
              ∈ trace (request (world_of [rejects (TypeError "Failed to fetch")]) post_record 0))
      as Hin by in_trace.
    destruct (request_network_failure _ _ 0 0%nat "Failed to fetch" Hin eq_refl) as [_ Hfinal].
    apply Hfinal. left. discriminate.
Defined.

(** A GET whose [fetch] is rejected with a [DOMException] of another name
    is not retried. *)
Lemma request_unclassified_failure_witness :
  completion (request (world_of [rejects (DOMException "NetworkError")]) get_products 0)
    = Throw (ResponseError "Something went wrong.") /\
  fetch_count (trace (request (world_of [rejects (DOMException "NetworkError")]) get_products 0))
    = 1%nat.
Proof.
  assert (EvFetch (url get_products)
                  (fetch_options (world_of [rejects (DOMException "NetworkError")]) get_products 0)
            ∈ trace (request (world_of [rejects (DOMException "NetworkError")]) get_products 0))
    as Hin by in_trace.
  assert (forall m, DOMException "NetworkError" <> TypeError m) as Hty by discriminate.
  assert (DOMException "NetworkError" <> DOMException "AbortError") as Hab by discriminate.
  destruct (request_unclassified_failure _ _ 0 0%nat _ Hin eq_refl Hty Hab)
    as [[_ Hother] Htrace].
  split.
  - apply Hother. discriminate.
  - rewrite Htrace. reflexivity.
Defined.

(** A GET that fails three times. *)
Lemma request_retries_exhausted_witness :
  fetch_count (trace (request world_mixed_failures get_cancellable 0)) = 3%nat /\
  sleeps (trace (request world_mixed_failures get_cancellable 0)) = [500; 1000] /\
  completion (request world_mixed_failures get_cancellable 0)
    = Throw (ResponseError "Something went wrong.").
Proof.
  assert (forall k, (k < 3)%nat ->
            abortSignal get_cancellable = None \/
            (aborted_at_start (browser world_mixed_failures k) = false /\
             aborted_at_settle (browser world_mixed_failures k) = false)) as Hsig.
  { intros k Hk. right. destruct k as [|[|[|k]]]; [by split..|lia]. }
  assert (forall k, (k < 3)%nat ->
            settled (browser world_mixed_failures k) = Rejected (DOMException "AbortError") \/
            exists m, settled (browser world_mixed_failures k) = Rejected (TypeError m)) as Hfail.
  { intros k Hk. destruct k as [|[|[|k]]]; [right; by eexists|by left|right; by eexists|lia]. }
  destruct (request_retries_exhausted world_mixed_failures get_cancellable 0 eq_refl Hsig Hfail)
    as (Hcount & Hsleeps & _ & Hnet).
  split; [exact Hcount|]. split; [exact Hsleeps|].
  exact (Hnet "Failed to fetch" eq_refl).
Defined.

(** Ten unrollings of the loop of a GET give the run of three. *)
Lemma request_loop_ends_in_body_witness :
  attempts world_network_twice get_products 10 0 1
    = attempts world_network_twice get_products (maxAttempts get_products) 0 1.
Proof.
  assert (maxAttempts get_products <= 10)%nat as Hfuel by (vm_compute; lia).
  exact (proj1 (request_loop_ends_in_body world_network_twice get_products 1 10 Hfuel)).
Defined.

(** Without a signal, an abort reported by [fetch] counts as a timeout. *)
Lemma request_without_signal_witness :
  completion (request (world_of [user_aborts]) delete_nothing 0) <> Throw AbortError /\
  EvAddEventListener 0 ∉ trace (request (world_of [user_aborts]) delete_nothing 0).
Proof.
  destruct (request_without_signal (world_of [user_aborts]) delete_nothing 0 eq_refl)
    as (Hno & Hlisteners & _).
  split; [exact Hno|]. exact (proj1 (Hlisteners 0%nat)).
Defined.

(** The second timer and the first listener of a retried GET. *)
Lemma request_cleanup_witness :
  (exists pre post,
     trace (request world_timeout_then_ok get_cancellable 0) =
       pre ++ [EvSetTimeout 1 5000;
               EvFetch "/products" (fetch_options world_timeout_then_ok get_cancellable 1);
               EvClearTimeout 1] ++ post) /\
  (exists pre post,
     trace (request world_timeout_then_ok get_cancellable 0) =
       pre ++ [EvAddEventListener 0; EvSetTimeout 0 5000;
               EvFetch "/products" (fetch_options world_timeout_then_ok get_cancellable 0);
               EvClearTimeout 0; EvRemoveEventListener 0] ++ post).
Proof.
  split.
  - destruct (request_cleanup world_timeout_then_ok get_cancellable 0 1) as [Htimer _].
    apply Htimer. in_trace.
  - destruct (request_cleanup world_timeout_then_ok get_cancellable 0 0) as [_ Hlistener].
    apply Hlistener. in_trace.
Defined.

(** The CSRF header of [defaults] reaches the prepared headers. *)
Lemma request_keeps_default_headers_witness :
  Headers_get "X-CSRF-Token" (prepare_headers defaults_csrf post_record) = Some "t0k3n".
Proof.
  assert (lowercase "X-CSRF-Token" <> "accept") as Ha by discriminate.
  assert (lowercase "X-CSRF-Token" <> "content-type") as Hc by discriminate.
  destruct (request_keeps_default_headers world_csrf post_record 0 "X-CSRF-Token" Ha Hc)
    as [Hkeep _].
  change defaults_csrf with (defaults world_csrf). rewrite Hkeep. reflexivity.
Defined.

(** * The function on what a caller passes *)

(** ** The serialiser on particular values *)

(** Members written out of order and twice: array indices come first in
    ascending order, "01" and 4294967295 are not array indices, and a key
    written twice is one property with the last value. *)
Lemma stringify_value_order :
  stringify_value
    (JObject [("b", num 1 I); ("10", JNull); ("2", JBool true); ("b", JString "x");
              ("01", num (-5) I); ("4294967295", JArray []); ("", JObject [])])
  = dq "{'2':true,'10':null,'b':'x','01':-5,'4294967295':[],'':{}}".
Proof. vm_compute. reflexivity. Qed.

(** The largest safe integers, and the characters that are escaped. *)
Lemma stringify_value_scalars :
  stringify_value (JArray [num 9007199254740991 I; num (-9007199254740991) I; num 0 I])
    = "[9007199254740991,-9007199254740991,0]" /\
  stringify_value (JString (String (ascii_of_N 8) (String (ascii_of_N 9)
                     (String (ascii_of_N 12) (String (ascii_of_N 13)
                     (String (ascii_of_N 31) (String (ascii_of_N 127) "/é")))))))
    = String dquote ("\b\t\f\r\u001f" +:+ String (ascii_of_N 127) "/é" +:+ String dquote "").
Proof. split; vm_compute; reflexivity. Qed.

(** [new Headers]: names are lower-cased, values trimmed, a name given
    twice has its values joined, and a bad name or value is refused. *)
Lemma new_Headers_examples :
  new_Headers [("X-CSRF-Token", " t0k3n "); ("Accept", "a"); ("accept", "b")]
    = inr (<["accept" := "a, b"]> (<["x-csrf-token" := "t0k3n"]> ∅)) /\
  new_Headers [] = inr ∅ /\
  new_Headers [("Accept", "a"); ("", "b")] = inl "Invalid name" /\
  new_Headers [("Bad Name", "a")] = inl "Invalid name" /\
  new_Headers [("X-Note", String "a" (String (ascii_of_N 10) "b"))] = inl "Invalid value".
Proof. repeat split; vm_compute; reflexivity. Qed.

(** ** Calls as a caller makes them *)

Lemma request_call_prepared cw st s h c :
  prepared_settings st = Normal s ->
  new_Headers (call_headers cw) = inr h ->
  request_call cw st c = request (prepared_world cw h) s c.
Proof.
  intros Hs Hh. unfold request_call, request, lift, mbind, Prog_bind, incr_activeRequests.
  rewrite Hs, Hh. cbn [after app]. by destruct (attempts _ _ _ _ _) as [[[?|]| |] ? ?].
Qed.

Lemma request_call_data_throws cw st e c :
  prepared_settings st = Throw e ->
  request_call cw st c = MkRun (Throw e) (c + 1) [].
Proof.
  intros Hs. unfold request_call, lift, mbind, Prog_bind, incr_activeRequests.
  by rewrite Hs.
Qed.

Lemma request_call_headers_throw cw st s m c :
  prepared_settings st = Normal s ->
  new_Headers (call_headers cw) = inl m ->
  request_call cw st c = MkRun (Throw (TypeError m)) (c + 1) [].
Proof.
  intros Hs Hh. unfold request_call, lift, mbind, Prog_bind, incr_activeRequests.
  by rewrite Hs, Hh.
Qed.

(** Lines 43-48 either give the body of the prepared settings, or throw
    the [TypeError] of a record that cannot be serialised. *)
Lemma prepared_settings_cases st :
  (exists s, prepared_settings st = Normal s /\
             prepare_call_data st = Normal (prepare_data s) /\
             accept s = call_accept st /\ url s = call_url st /\
             abortSignal s = call_abortSignal st /\ timeoutMs s = call_timeoutMs st /\
             method s = call_method st) \/
  (exists m props, prepared_settings st = Throw (TypeError m) /\
                   prepare_call_data st = Throw (TypeError m) /\
                   call_method st <> GET /\ call_data st = Some (CRecord props) /\
                   serialize_record props = NotSerializable m).
Proof.
  unfold prepared_settings, prepare_call_data, prepare_data, JSON_stringify_unknown,
    JSON_stringify.
  destruct (Method_eqb (call_method st) GET) eqn:Hm.
  { left. eexists. split; [done|]. cbn. by rewrite Hm. }
  destruct (call_data st) as [[props|fd]|] eqn:Hd.
  - destruct (serialize_record props) as [fields| |m] eqn:Hser.
    + left. eexists. split; [done|]. cbn. by rewrite Hm.
    + left. eexists. split; [done|]. cbn. by rewrite Hm.
    + right. exists m, props. apply Method_eqb_not_GET in Hm. done.
  - left. eexists. split; [done|]. cbn. by rewrite Hm.
  - left. eexists. split; [done|]. cbn. by rewrite Hm.
Qed.

(** What a call does, by how preparation goes. *)
Lemma request_call_cases cw st c :
  (exists s h, prepared_settings st = Normal s /\
               new_Headers (call_headers cw) = inr h /\
               request_call cw st c = request (prepared_world cw h) s c) \/
  (exists m, request_call cw st c = MkRun (Throw (TypeError m)) (c + 1) [] /\
             ((exists props, call_method st <> GET /\ call_data st = Some (CRecord props) /\
                             serialize_record props = NotSerializable m) \/
              new_Headers (call_headers cw) = inl m)).
Proof.
  destruct (prepared_settings_cases st)
    as [(s & Hs & _)|(m & props & Hs & _ & Hm & Hd & Hser)].
  - destruct (new_Headers (call_headers cw)) as [m|h] eqn:Hh.
    + right. exists m. split; [by apply (request_call_headers_throw cw st s)|by right].
    + left. exists s, h. split; [done|]. split; [done|]. by apply request_call_prepared.
  - right. exists m. split; [by apply request_call_data_throws|]. left. by exists props.
Qed.

(** ** Preparation *)




(** ** What a call can throw *)



(** ** Iterations *)

(** One retried iteration: its controller, one [fetch], and the back-off
    sleep at the end. *)
Lemma retried_structure w s k :
  exists body,
    retried w s k = EvNewAbortController k :: body ++ [EvSleep (backoff k)] /\
    controllers body = [] /\ fetch_count body = 1%nat /\ sleeps body = [].
Proof.
  unfold retried, started, cleanup, listener. destruct (abortSignal s).
  - by exists [EvAddEventListener k; EvSetTimeout k (baseTimeout s);
               EvFetch (url s) (fetch_options w s k);
               EvClearTimeout k; EvRemoveEventListener k].
  - by exists [EvSetTimeout k (baseTimeout s); EvFetch (url s) (fetch_options w s k);
               EvClearTimeout k].
Qed.

Lemma attempt_body_structure w s k c :
  (forall a', completion (attempt_body w s k c) <> Normal (LContinue a')) ->
  exists rest,
    trace (attempt_body w s k c) = EvNewAbortController k :: rest /\
    controllers rest = [] /\ (fetch_count rest <= 1)%nat /\ sleeps rest = [].
Proof.
  intros Hlast. destruct (attempt_body_head w s k c) as [rest Hrest].
  pose proof (attempt_body_controllers w s k c) as Hc.
  pose proof (attempt_body_fetch_count w s k c) as [Hf _].
  pose proof (attempt_body_no_sleep w s k c Hlast) as Hs.
  rewrite Hrest in Hc, Hf, Hs. exists rest. split; [done|].
  cbn in Hc. injection Hc as Hc. done.
Qed.

(** X9.  A call that throws in preparation runs no iteration: its trace
    is empty.  Every other call runs iterations 0, 1, ..., n in this
    order, with n below [maxAttempts].  Each of the first n creates its
    controller, calls [fetch] once and ends with the back-off sleep of
    [500 * 2^k] ms; the last creates its controller, calls [fetch] at most
    once and does not sleep.  So the call spends at most 1500 ms in
    back-off. *)
Theorem request_call_iterations (cw : CallWorld) (st : CallSettings) (c : Z) :
  ((exists m, completion (request_call cw st c) = Throw (TypeError m)) /\
   trace (request_call cw st c) = []) \/
  (exists s h n last,
     prepared_settings st = Normal s /\ new_Headers (call_headers cw) = inr h /\
     (n < maxAttempts s)%nat /\
     trace (request_call cw st c) =
       flat_map (retried (prepared_world cw h) s) (seq 0 n) ++ EvNewAbortController n :: last /\
     (forall k, exists body,
        retried (prepared_world cw h) s k
          = EvNewAbortController k :: body ++ [EvSleep (500 * 2 ^ Z.of_nat k)] /\
        controllers body = [] /\ fetch_count body = 1%nat /\ sleeps body = []) /\
     controllers last = [] /\ (fetch_count last <= 1)%nat /\ sleeps last = [] /\
     0 <= total_sleep (trace (request_call cw st c)) <= 1500).
Proof.
  destruct (request_call_cases cw st c) as [(s & h & Hs & Hh & ->)|(m & -> & _)].
  2:{ left. split; [by exists m|done]. }
  right.
  destruct (request_shape (prepared_world cw h) s c) as (n & Hn & _ & Hlast & ->).
  destruct (attempt_body_structure _ s n (c + 1) Hlast) as (last & Hl & Hc & Hf & Hsl).
  exists s, h, n, last. rewrite trace_after, trace_final, Hl.
  split; [done|]. split; [done|]. split; [done|]. split; [done|].
  split; [intros k; apply retried_structure|].
  split; [done|]. split; [done|]. split; [done|].
  unfold total_sleep. rewrite sleeps_app, sleeps_retried_prefix. cbn [sleeps].
  rewrite Hsl, app_nil_r.
  assert (n < 3)%nat as Hn3.
  { unfold maxAttempts in Hn. destruct (Method_eqb _ _); lia. }
  destruct n as [|[|[|n]]]; [vm_compute; split; discriminate..|lia].
Qed.


